(** * cpp_buffer: a shallow embedding of [Buffer<T, 1u, ptr_t>] and of the
    bounds-violation hook.

    The development follows the two sources of the library:
    - [cpp_buffer/buffer_assert.h] and [src/buffer_assert.cpp]: the macro
      [cpp_buffer_assert] and the function [assert_hook];
    - [cpp_buffer/buffer.h]: the stride-1 specialisation of [Buffer], its
      constructors, [operator[]], [begin]/[end], [size], [slice] and the free
      function [size_of].

    Integers are mathematical integers with the wrap-around of the C++ type
    written out ([size_t] is 64 bits wide, [int] is 32 bits wide: the LP64
    data model, the one in which the literal [0ul] of the source is a
    [size_t]).  Raw pointers are a block identifier and an element offset;
    the free store maps block identifiers to arrays of cells.  Adding a
    [size_t] to a pointer, as [end()] does, wraps with the 64-bit
    address. *)

From stdpp Require Import base option list gmap strings pretty.
From Stdlib Require Import ZArith Lia Ascii.

Local Open Scope Z_scope.

(** ** Machine integers *)

Module Platform.

Definition SIZE_BITS : Z := 64.
Definition SIZE_MAX : Z := 2 ^ SIZE_BITS - 1.
Definition INT_BITS : Z := 32.
Definition INT_MIN : Z := - 2 ^ (INT_BITS - 1).
Definition INT_MAX : Z := 2 ^ (INT_BITS - 1) - 1.

(** A value of type [size_t] / of type [int]. *)
Definition is_size_t (n : Z) : Prop := 0 <= n <= SIZE_MAX.
Definition is_int (i : Z) : Prop := INT_MIN <= i <= INT_MAX.
(** A value of type [uint8_t] (the stride template argument). *)
Definition is_uint8 (s : Z) : Prop := 0 <= s <= 255.

(** Conversion to [size_t] ([static_cast<size_t>]) and the arithmetic of
    [size_t]: everything is reduced modulo [2 ^ SIZE_BITS]. *)
Definition to_size_t (z : Z) : Z := z mod 2 ^ SIZE_BITS.
Definition size_t_add (a b : Z) : Z := to_size_t (a + b).
Definition size_t_sub (a b : Z) : Z := to_size_t (a - b).
Definition size_t_mul (a b : Z) : Z := to_size_t (a * b).

End Platform.
Import Platform.

(** ** Outcomes of a call *)

(** The exceptions the modelled code can see.  [OutOfRangeError] is the
    typedef of [std::out_of_range] in [buffer_assert.h]; the two allocation
    failures are those of a [new]-expression; [user_exception] stands for
    whatever else a caller-supplied allocator may throw. *)
Inductive exn : Type :=
  | OutOfRangeError (what : string)
  | bad_alloc
  | bad_array_new_length
  | user_exception (tag : string).

(** A call returns, throws, aborts the process (a failed [assert]) or has
    undefined behaviour. *)
Inductive outcome (A : Type) : Type :=
  | Ret (a : A)
  | Throw (e : exn)
  | Aborted
  | Undefined.
Arguments Ret {A} a.
Arguments Throw {A} e.
Arguments Aborted {A}.
Arguments Undefined {A}.

Global Instance outcome_ret : MRet outcome := fun A a => Ret a.
Global Instance outcome_bind : MBind outcome := fun A B k m =>
  match m with
  | Ret a => k a
  | Throw e => Throw e
  | Aborted => Aborted
  | Undefined => Undefined
  end.

(** [try { body } catch (...) { handler }]: every exception that leaves
    [body] enters [handler]; nothing else does. *)
Definition try_catch_all {A} (body handler : outcome A) : outcome A :=
  match body with
  | Throw _ => handler
  | r => r
  end.

(** ** [std::snprintf] for the directives the hook uses *)

Module Printf.

Inductive arg : Type :=
  | ArgStr (s : string)     (* a [const char *] for [%s] *)
  | ArgInt (z : Z).         (* an [int] for [%d] *)

(** The double quote character, which the format string of the hook
    contains escaped. *)
Definition dquote : string := String (Ascii.ascii_of_nat 34) EmptyString.

(** Expansion of a format string: [None] when a directive meets no argument
    or one of the wrong type. *)
Fixpoint format (fmt : string) (args : list arg) : option string :=
  match fmt with
  | EmptyString => Some EmptyString
  | String "%"%char (String "s"%char rest) =>
      match args with
      | ArgStr s :: args' => (fun r => s +:+ r) <$> format rest args'
      | _ => None
      end
  | String "%"%char (String "d"%char rest) =>
      match args with
      | ArgInt z :: args' => (fun r => pretty z +:+ r) <$> format rest args'
      | _ => None
      end
  | String c rest => String c <$> format rest args
  end.

(** The first [n] characters of a string. *)
Fixpoint truncate (n : nat) (s : string) : string :=
  match n, s with
  | S n', String c s' => String c (truncate n' s')
  | _, _ => EmptyString
  end.

(** [snprintf(buffer, size, fmt, args...)]: the content of [buffer]
    afterwards, at most [size - 1] characters and the terminator. *)
Definition snprintf (size : nat) (fmt : string) (args : list arg)
  : option string :=
  truncate (size - 1) <$> format fmt args.

(** [needle] occurs in [hay]. *)
Fixpoint contains (needle hay : string) : bool :=
  String.prefix needle hay
  || match hay with
     | EmptyString => false
     | String _ hay' => contains needle hay'
     end.

End Printf.

(** ** buffer_assert.cpp *)

Definition OUT_OF_RANGE_STRING : string := "Buffer access out of bounds".

Definition formatString : string :=
  "%s:%d buffer assert condition failed. Got %d from "
  +:+ Printf.dquote +:+ "%s" +:+ Printf.dquote.

Definition assert_hook (file : string) (line : Z) (condition : Z)
    (conditionString : string) : outcome unit :=
  try_catch_all
    (match Printf.snprintf 1024 formatString
             [Printf.ArgStr file; Printf.ArgInt line;
              Printf.ArgInt condition; Printf.ArgStr conditionString] with
     | Some buffer => Throw (OutOfRangeError buffer)
     | None => Undefined
     end)
    (* If we fail to format a string for some reason, pass a non-formatted
       statically initialized string instead *)
    (Throw (OutOfRangeError OUT_OF_RANGE_STRING)).

(** The message the [try] block builds and throws. *)
Definition formatted_message (file : string) (line : Z) (condition : Z)
    (conditionString : string) : string :=
  Printf.truncate 1023
    (file +:+ ":" +:+ pretty line
       +:+ " buffer assert condition failed. Got " +:+ pretty condition
       +:+ " from " +:+ Printf.dquote +:+ conditionString +:+ Printf.dquote).

(** ** buffer_assert.h *)

(** The preprocessor symbols that select the bounds-check strategy, and
    [NDEBUG], which switches the [assert] of [<cassert>] off.  Their values
    come from the build and from [buffer_definitions.h]; here they are a
    parameter of every operation that expands a macro. *)
Record config : Type := Config {
  NDEBUG : bool;
  CPPBUFFER_USES_ASSERT : bool;
  CPPBUFFER_ASSERT_USES_CASSERT : bool;
  CPPBUFFER_ASSERT_USES_EXCEPTIONS : bool
}.

(** [__FILE__] and [__LINE__] at the place a macro is expanded. *)
Record source_location : Type := SourceLocation {
  file : string;
  line : Z
}.

(** The macro [assert] of [<cassert>]. *)
Definition assert (cfg : config) (cond_ : bool) : outcome unit :=
  if NDEBUG cfg then Ret tt
  else if cond_ then Ret tt
  else Aborted.

(** The macro [cpp_buffer_assert], read as the header means it.  As it is
    written, only the last branch builds: the first is spelled
    [cassert(cond_)], a name that [<cassert>] does not declare, and the
    second calls [::CPPBuffer::assert_hook], which the header declares and
    buffer_assert.cpp defines in the global namespace, with
    [OutOfRangeError] existing only under
    [CPPBUFFER_ASSERT_USES_EXCEPTIONS].  The first branch is read as the
    macro [assert] of the included header, the second as running the body
    that the source file gives for the hook. *)
Definition cpp_buffer_assert (cfg : config) (loc : source_location)
    (cond_ : bool) (cond_text : string) : outcome unit :=
  if CPPBUFFER_USES_ASSERT cfg && CPPBUFFER_ASSERT_USES_CASSERT cfg then
    assert cfg cond_
  else if CPPBUFFER_USES_ASSERT cfg then
    if negb cond_
    then assert_hook (file loc) (line loc) (Z.b2z cond_) cond_text
    else Ret tt
  else Ret tt.

(** The exception-raising strategy: the hook is compiled in, and
    [OutOfRangeError] is defined. *)
Definition exception_strategy (cfg : config) : Prop :=
  CPPBUFFER_USES_ASSERT cfg = true
  /\ CPPBUFFER_ASSERT_USES_CASSERT cfg = false
  /\ CPPBUFFER_ASSERT_USES_EXCEPTIONS cfg = true.

(** Bounds checking switched off. *)
Definition checks_disabled (cfg : config) : Prop :=
  CPPBUFFER_USES_ASSERT cfg = false.

(** ** Raw pointers *)

Definition block : Type := positive.

(** A [T *]: the allocation it points into ([None] for a pointer obtained
    from the null pointer) and an offset counted in elements. *)
Record ptr : Type := Ptr {
  blk : option block;
  off : Z
}.

Global Instance ptr_eq_dec : EqDecision ptr.
Proof. solve_decision. Defined.

Definition nullptr : ptr := Ptr None 0.

(** [p + n] *)
Definition ptr_add (p : ptr) (n : Z) : ptr := Ptr (blk p) (off p + n).

(** The loop [for (it = first; it != last; ++it) visit(it)] over raw
    cursors: the positions visited, in order, or [None] when [fuel]
    iterations do not reach [last]. *)
Fixpoint traverse (fuel : nat) (it last : ptr) : option (list ptr) :=
  match fuel with
  | O => None
  | S fuel' =>
      if decide (it = last) then Some []
      else (fun rest => it :: rest) <$> traverse fuel' (ptr_add it 1) last
  end.

(** ** Element types *)

(** What the code uses of the element type [T]: [sizeof(T)], which is at
    least one, and what default-initialisation leaves in an element
    ([None] when [T] is trivially default-constructible and the value is
    indeterminate, as for [int]; [Some v] when the default constructor of
    [T] yields [v]). *)
Class ElementType (T : Type) : Type := {
  sizeof : Z;
  default_init : option T;
  sizeof_pos : 0 < sizeof
}.
Arguments sizeof T {_}.
Arguments default_init T {_}.

(** ** The free store *)

Section Memory.

Context {T : Type} `{!ElementType T}.

(** Live allocations (arrays of cells), the use counts of the control
    blocks of [std::shared_ptr] (keyed by the allocation they own), and
    the number of bytes the free store can still hand out. *)
Record heap : Type := Heap {
  blocks : gmap block (list (option T));
  use_count : gmap block nat;
  avail : Z
}.

(** The cell a pointer designates, when it designates one. *)
Definition deref (h : heap) (p : ptr) : option (option T) :=
  b ← blk p;
  cells ← blocks h !! b;
  if decide (0 <= off p) then cells !! Z.to_nat (off p) else None.

(** Reading through a reference; reading an indeterminate value is not a
    defined read. *)
Definition load (h : heap) (p : ptr) : option T :=
  deref h p ≫= id.

(** Writing through a reference. *)
Definition store (h : heap) (p : ptr) (v : T) : option heap :=
  b ← blk p;
  cells ← blocks h !! b;
  if decide (0 <= off p < Z.of_nat (length cells)) then
    Some (Heap (<[b := <[Z.to_nat (off p) := Some v]> cells]> (blocks h))
               (use_count h) (avail h))
  else None.

(** [new T[n]]: [std::bad_array_new_length] when the byte size does not fit
    [size_t], [std::bad_alloc] when the free store is exhausted, otherwise
    a fresh array of [n] default-initialised elements.  The limit on the
    byte size is implementation-defined; it is taken to be [SIZE_MAX], the
    largest it can be (an implementation may refuse from a smaller size
    on, with the same exception). *)
Definition new_array (n : Z) (h : heap) : outcome block * heap :=
  if decide (SIZE_MAX < n * sizeof T) then (Throw bad_array_new_length, h)
  else if decide (avail h < n * sizeof T) then (Throw bad_alloc, h)
  else
    let b := fresh (dom (blocks h)) in
    (Ret b,
     Heap (<[b := replicate (Z.to_nat n) (default_init T)]> (blocks h))
          (use_count h) (avail h - n * sizeof T)).

(** [delete[] p] for the array [b]. *)
Definition delete_array (b : block) (h : heap) : heap :=
  match blocks h !! b with
  | Some cells =>
      Heap (delete b (blocks h)) (use_count h)
           (avail h + Z.of_nat (length cells) * sizeof T)
  | None => h
  end.

(** *** [std::shared_ptr<T>] *)

(** The stored pointer and the control block, named by the array it owns
    ([None] for an empty [shared_ptr]). *)
Record shared_ptr : Type := SharedPtr {
  sp_get : ptr;
  sp_ctrl : option block
}.

(** [shared_ptr(nullptr)] *)
Definition sp_null : shared_ptr := SharedPtr nullptr None.

(** [shared_ptr<T>(p, deleter)] for a pointer to the start of the array [b],
    with the deleter of [Buffer(size_t)], which is [delete[] p].  The
    control block is recorded as a use count only: its own bytes are not
    taken from [avail], so its allocation does not fail here. *)
Definition sp_adopt (b : block) (h : heap) : shared_ptr * heap :=
  (SharedPtr (Ptr (Some b) 0) (Some b),
   Heap (blocks h) (<[b := 1%nat]> (use_count h)) (avail h)).

(** Copy construction: one more owner. *)
Definition sp_copy (p : shared_ptr) (h : heap) : shared_ptr * heap :=
  match sp_ctrl p with
  | Some c =>
      (p, Heap (blocks h) (alter S c (use_count h)) (avail h))
  | None => (p, h)
  end.

(** Move construction: the new handle, and the source left empty. *)
Definition sp_move (p : shared_ptr) : shared_ptr * shared_ptr :=
  (p, sp_null).

(** Destruction: one owner fewer; the last one runs the deleter. *)
Definition sp_release (p : shared_ptr) (h : heap) : heap :=
  match sp_ctrl p with
  | Some c =>
      match use_count h !! c with
      | Some (S (S k)) =>
          Heap (blocks h) (<[c := S k]> (use_count h)) (avail h)
      | Some _ =>
          let h' := delete_array c h in
          Heap (blocks h') (delete c (use_count h')) (avail h')
      | None => h
      end
  | None => h
  end.

(** Copy assignment [dst = src], which is [shared_ptr(src).swap(dst)]: the
    copy is made first, then the old value of [dst] is destroyed. *)
Definition sp_assign (dst src : shared_ptr) (h : heap)
  : shared_ptr * heap :=
  let '(c, h1) := sp_copy src h in
  (c, sp_release dst h1).

(** [p] holds one of the counted references to the array [b]. *)
Definition sp_owns (h : heap) (p : shared_ptr) (b : block) : Prop :=
  sp_ctrl p = Some b /\ exists k, use_count h !! b = Some (S k).

End Memory.

Arguments heap T : clear implicits.

(** ** Ownership handles *)

(** The template parameter [ptr_t] of [Buffer]: what the class uses of it,
    which is construction from [nullptr], copy and move construction, copy
    assignment and [get()].  Copying and assigning may touch the free
    store (the use counts of a [shared_ptr]); [owns h p b] says that the
    handle [p] holds a share of the allocation [b] in the free store [h]. *)
Class OwnershipHandle (T H : Type) : Type := {
  get : H -> ptr;
  null_handle : H;
  copy_construct : H -> heap T -> H * heap T;
  move_construct : H -> H * H;
  copy_assign : H -> H -> heap T -> H * heap T;
  owns : heap T -> H -> block -> Prop
}.

(** What [Buffer] relies on when it "very much assumes that you provide a
    smart pointer type": the null handle holds the null pointer; a copy or
    a moved-to handle designates the same memory; copying allocates
    nothing; and assigning over a handle keeps alive the memory that the
    assigned handle owns. *)
Class SmartPointer (T H : Type) `{!OwnershipHandle T H} : Prop := {
  get_null_handle : get null_handle = nullptr;
  copy_construct_get p h : get (copy_construct p h).1 = get p;
  copy_construct_blocks p h : blocks (copy_construct p h).2 = blocks h;
  copy_construct_avail p h : avail (copy_construct p h).2 = avail h;
  move_construct_get p : get (move_construct p).1 = get p;
  copy_assign_get d s h : get (copy_assign d s h).1 = get s;
  copy_assign_blocks d s h b :
    owns h s b -> blocks (copy_assign d s h).2 !! b = blocks h !! b
}.

(** [std::shared_ptr<T>] as [ptr_t], the default. *)
Global Instance shared_ptr_handle {T : Type} `{!ElementType T}
  : OwnershipHandle T shared_ptr := {|
  get := sp_get;
  null_handle := sp_null;
  copy_construct := sp_copy;
  move_construct := sp_move;
  copy_assign := sp_assign;
  owns := sp_owns
|}.

(** A bare [T *] as [ptr_t] ("use bare pointers at your own risk"): copies
    are plain values and nothing is ever released. *)
Global Instance raw_ptr_handle {T : Type} : OwnershipHandle T ptr := {|
  get := fun p => p;
  null_handle := nullptr;
  copy_construct := fun p h => (p, h);
  move_construct := fun p => (p, p);
  copy_assign := fun _ s h => (s, h);
  owns := fun _ p b => blk p = Some b
|}.

(** ** Allocators *)

(** The template parameter [allocator_t] of [Buffer(size_t, allocator_t &)]:
    [a.allocate(n)] yields the handle that initialises [mMemory] or leaves
    by an exception (or worse); the allocator is passed by reference, so
    its own state after the call is part of the result. *)
Class Allocator (T H A : Type) : Type := {
  allocate : A -> Z -> heap T -> outcome H * A * heap T
}.

(** ** buffer.h: [Buffer<T, 1u, ptr_t>] *)

(** The data members [ptr_t mMemory] and [size_t mSize] of
    [Buffer<T, 1u, ptr_t>]. *)
Record Buffer (T H : Type) : Type := mkBuffer {
  mMemory : H;
  mSize : Z
}.
Arguments mkBuffer {T H} mMemory mSize.
Arguments mMemory {T H} b.
Arguments mSize {T H} b.

Section Buffer.

Context {T H : Type} `{!ElementType T} `{!OwnershipHandle T H}.

(** [Buffer() = default], with the default member initialisers
    [mMemory = nullptr] and [mSize = 0ul]. *)
Definition Buffer_default : Buffer T H :=
  {| mMemory := null_handle; mSize := 0 |}.

(** [Buffer(const Buffer &) = default]: member-wise copy. *)
Definition Buffer_copy (other : Buffer T H) (h : heap T)
  : Buffer T H * heap T :=
  let '(m, h') := copy_construct (mMemory other) h in
  ({| mMemory := m; mSize := mSize other |}, h').

(** [Buffer(Buffer &&) = default]: member-wise move; the result and what
    is left of [other]. *)
Definition Buffer_move (other : Buffer T H) : Buffer T H * Buffer T H :=
  let '(m, src) := move_construct (mMemory other) in
  ({| mMemory := m; mSize := mSize other |},
   {| mMemory := src; mSize := mSize other |}).

(** [Buffer &operator=(const Buffer &) = default]: member-wise copy
    assignment; the new value of [*this]. *)
Definition Buffer_copy_assign (this other : Buffer T H) (h : heap T)
  : Buffer T H * heap T :=
  let '(m, h') := copy_assign (mMemory this) (mMemory other) h in
  ({| mMemory := m; mSize := mSize other |}, h').

(** [Buffer(const ptr_t &p, size_t s) : mMemory(p), mSize(s)] *)
Definition Buffer_of_handle (p : H) (s : Z) (h : heap T)
  : Buffer T H * heap T :=
  let '(m, h') := copy_construct p h in
  ({| mMemory := m; mSize := s |}, h').

(** [Buffer(ptr_t &&other, size_t s) : mMemory(std::move(other)), mSize(s)]:
    the buffer, and what is left of [other]. *)
Definition Buffer_of_rvalue (other : H) (s : Z) : Buffer T H * H :=
  let '(m, src) := move_construct other in
  ({| mMemory := m; mSize := s |}, src).

(** [Buffer(size_t n, allocator_t &a) : mMemory(a.allocate(n)), mSize(n)] *)
Definition Buffer_of_allocator {A : Type} `{!Allocator T H A}
    (n : Z) (a : A) (h : heap T) : outcome (Buffer T H) * A * heap T :=
  let '(r, a', h') := allocate a n h in
  (m ← r; mret {| mMemory := m; mSize := n |}, a', h').

(** [size_t size() const] *)
Definition size (b : Buffer T H) : Z := mSize b.

(** [size_of(buffer)]: [buffer.size() * sizeof(T)], a product of two
    [size_t]. *)
Definition size_of (buffer : Buffer T H) : Z :=
  size_t_mul (size buffer) (sizeof T).

(** [T &operator[](int i)]: the reference is the address of the element;
    nothing is read. *)
Definition operator_index (cfg : config) (b : Buffer T H) (i : Z)
  : outcome ptr :=
  assert cfg (bool_decide (i >= 0) && bool_decide (to_size_t i < mSize b));;
  mret (ptr_add (get (mMemory b)) i).

(** [const T &operator[](int i) const] *)
Definition operator_index_const (cfg : config) (b : Buffer T H) (i : Z)
  : outcome ptr :=
  assert cfg (bool_decide (i >= 0) && bool_decide (to_size_t i < mSize b));;
  mret (ptr_add (get (mMemory b)) i).

(** The number of elements after which [T *] arithmetic comes back to
    where it started.  A pointer is an address of 64 bits and [p + n]
    displaces it by [n * sizeof(T)] bytes, reduced modulo [2 ^ 64]; two
    element counts therefore reach the same address exactly when they
    differ by a multiple of [2 ^ 64 / gcd (sizeof(T), 2 ^ 64)], which is
    [2 ^ 62] for a four-byte [T]. *)
Definition elem_modulus : Z :=
  2 ^ SIZE_BITS / Z.gcd (sizeof T) (2 ^ SIZE_BITS).

(** [p + n] for an [n] of type [size_t]: the displacement wraps as the
    address does.  (The offsets that [operator[]] adds are values of
    [int] and stay far below the modulus.) *)
Definition ptr_add_size_t (p : ptr) (n : Z) : ptr :=
  ptr_add p (n mod elem_modulus).

(** [Iterator begin()] and [Iterator end()], with [Iterator = T *]:
    [return mMemory.get();] and [return mMemory.get() + mSize;] *)
Definition begin (b : Buffer T H) : ptr := get (mMemory b).
Definition end_ (b : Buffer T H) : ptr :=
  ptr_add_size_t (get (mMemory b)) (mSize b).

(** [ConstIterator begin() const] and [ConstIterator end() const] *)
Definition begin_const (b : Buffer T H) : ptr := get (mMemory b).
Definition end_const (b : Buffer T H) : ptr :=
  ptr_add_size_t (get (mMemory b)) (mSize b).

End Buffer.

Arguments elem_modulus T {_}.

(** The expression [std::shared_ptr<T>(new T[n], [](T* p){ delete[] p; })]:
    the handle, or the exception of the [new]-expression. *)
Definition new_shared {T : Type} `{!ElementType T} (n : Z) (h : heap T)
  : outcome shared_ptr * heap T :=
  let '(r, h1) := new_array n h in
  match r with
  | Ret b => let '(p, h2) := sp_adopt b h1 in (Ret p, h2)
  | Throw e => (Throw e, h1)
  | Aborted => (Aborted, h1)
  | Undefined => (Undefined, h1)
  end.

(** [Buffer(size_t n)
      : mMemory(std::shared_ptr<T>(new T[n], [](T* p){ delete[] p; }))
      , mSize(n)],
    for the default [ptr_t], which is [std::shared_ptr<T>]. *)
Definition Buffer_new {T : Type} `{!ElementType T} (n : Z) (h : heap T)
  : outcome (Buffer T shared_ptr) * heap T :=
  let '(r, h') := new_shared n h in
  (m ← r; mret {| mMemory := m; mSize := n |}, h').

(** ** Slices *)

(** Modelled from the spec: the data members of the class template
    [Slice<T, stride, ptr_t>], which buffer.h declares and never defines:
    the ownership handle of the parent, the parent's size, and the
    attributes [origin_offset], [extent] and [stride] of the spec's data
    model. *)
Record Slice (T H : Type) : Type := mkSlice {
  slice_memory : H;
  slice_parent_size : Z;
  origin_offset : Z;
  extent : Z;
  stride : Z
}.
Arguments mkSlice {T H} _ _ _ _ _.
Arguments slice_memory {T H} s.
Arguments slice_parent_size {T H} s.
Arguments origin_offset {T H} s.
Arguments extent {T H} s.
Arguments stride {T H} s.

Section Slice.

Context {T H : Type} `{!ElementType T} `{!OwnershipHandle T H}.

(** Modelled from the spec: the constructor
    [Slice(memory, size, begin, end, stride)] that [Buffer::slice] calls.
    The handle is copied ("incrementing the shared-ownership count, not
    duplicating memory"), the slice covers the half-open range
    [[begin, end)] of the parent's indexing, and its logical element count
    is [end - begin]. *)
Definition Slice_ctor (memory : H) (parent_size first last s : Z)
    (h : heap T) : Slice T H * heap T :=
  let '(m, h') := copy_construct memory h in
  (mkSlice m parent_size first (size_t_sub last first) s, h').

(** Modelled from the spec: [Slice::size()], the logical element count
    visible through the slice. *)
Definition Slice_size (s : Slice T H) : Z := extent s.

(** Modelled from the spec: the backing index of logical index [k],
    "[origin_offset + index * stride]", in [size_t] arithmetic. *)
Definition Slice_backing_index (s : Slice T H) (k : Z) : Z :=
  size_t_add (origin_offset s) (size_t_mul (to_size_t k) (stride s)).

(** Modelled from the spec: [Slice::operator[]], which checks the index
    against the slice's extent and the translated index against the
    parent's size through the bounds-check strategy ("slicing out of range
    is a bounds violation ... at first subsequent access"), then refers to
    the element of the backing memory at the translated index. *)
Definition Slice_index (cfg : config) (loc : source_location)
    (s : Slice T H) (k : Z) : outcome ptr :=
  cpp_buffer_assert cfg loc
    (bool_decide (k >= 0) && bool_decide (to_size_t k < extent s))
    "i >= 0 && static_cast<size_t>(i) < mSize";;
  cpp_buffer_assert cfg loc
    (bool_decide (Slice_backing_index s k < slice_parent_size s))
    "origin_offset + i * stride < size";;
  mret (ptr_add (get (slice_memory s)) (Slice_backing_index s k)).

(** [Slice<T, s, ptr_t> slice(size_t begin, size_t end)] of
    [Buffer<T, 1u, ptr_t>]:
    [return Slice<T, s, ptr_t>(mMemory, mSize, begin, end, s);] *)
Definition slice (s : Z) (b : Buffer T H) (first last : Z) (h : heap T)
  : Slice T H * heap T :=
  Slice_ctor (mMemory b) (mSize b) first last s h.

End Slice.

(** ** A concrete instantiation: [Buffer<int>] *)

(** [int] elements: four bytes, no default constructor. *)
Global Instance int_element : ElementType Z := {|
  sizeof := 4;
  default_init := None;
  sizeof_pos := eq_refl
|}.

(** A free store with nothing allocated and [bytes] bytes to hand out. *)
Definition empty_heap {T : Type} (bytes : Z) : heap T := Heap ∅ ∅ bytes.

(** A free store holding one array of [int], owned by one [shared_ptr]. *)
Definition heap_with (cells : list (option Z)) (bytes : Z) : heap Z :=
  Heap {[ 1%positive := cells ]} {[ 1%positive := 1%nat ]} bytes.

(** The [shared_ptr] that owns the array of [heap_with]. *)
Definition sample_handle : shared_ptr :=
  SharedPtr (Ptr (Some 1%positive) 0) (Some 1%positive).

(** [Buffer<int>] of size 10 over that array. *)
Definition sample_buffer : Buffer Z shared_ptr := mkBuffer sample_handle 10.

Definition sample_heap : heap Z := heap_with (replicate 10 (Some 0)) 0.

(** Build configurations: the exception-raising hook, and bounds checking
    switched off, both without [NDEBUG]. *)
Definition cfg_exceptions : config := Config false true false true.
Definition cfg_disabled : config := Config false false false false.

(** An allocator for [shared_ptr<int>] handles that counts its calls and
    refuses the first [refusals] of them with an exception of its own; later
    calls take the array from the free store. *)
Record counting_allocator : Type := CountingAllocator {
  calls : nat;
  refusals : nat
}.

Global Instance counting_allocator_allocate
  : Allocator Z shared_ptr counting_allocator := {|
  allocate a n h :=
    let a' := CountingAllocator (S (calls a)) (refusals a) in
    if decide (calls a < refusals a)%nat
    then (Throw (user_exception "pool not ready"), a', h)
    else let '(r, h') := new_shared n h in (r, a', h')
|}.

(** The invariant of a view over the free store: the [size] elements from
    the handle's pointer on lie inside one live allocation. *)
Definition Buffer_valid {T H : Type} `{!OwnershipHandle T H}
    (h : heap T) (b : Buffer T H) : Prop :=
  exists (a : block) (cells : list (option T)),
    blk (get (mMemory b)) = Some a
    /\ blocks h !! a = Some cells
    /\ 0 <= off (get (mMemory b))
    /\ off (get (mMemory b)) + mSize b <= Z.of_nat (length cells).

(** The handle of the buffer holds a share of the allocation its pointer
    points into. *)
Definition Buffer_owns {T H : Type} `{!OwnershipHandle T H}
    (h : heap T) (b : Buffer T H) : Prop :=
  exists a : block, blk (get (mMemory b)) = Some a /\ owns h (mMemory b) a.

(** The references [b[0]], ..., [b[size - 1]], in index order. *)
Definition element_addresses {T H : Type} `{!OwnershipHandle T H}
    (b : Buffer T H) : list ptr :=
  (fun k : nat => ptr_add (get (mMemory b)) (Z.of_nat k))
    <$> seq 0 (Z.to_nat (mSize b)).

(** ** More of buffer.h and of its callers *)

(** The expansion of the hook's format string before [snprintf] cuts it
    to the size of the buffer. *)
Definition diagnostic_text (file : string) (line : Z) (condition : Z)
    (conditionString : string) : string :=
  file +:+ ":" +:+ pretty line
    +:+ " buffer assert condition failed. Got " +:+ pretty condition
    +:+ " from " +:+ Printf.dquote +:+ conditionString +:+ Printf.dquote.

(** Every control block of the free store belongs to a live allocation. *)
Definition heap_wf {T : Type} (h : heap T) : Prop :=
  forall c : block, is_Some (use_count h !! c) -> is_Some (blocks h !! c).

(** Move assignment of [std::shared_ptr<T>], [dst = std::move(src)], which
    is [shared_ptr(std::move(src)).swap(dst)]: [dst] takes over the share
    of [src], [src] is left empty, and the old value of [dst] is
    destroyed.  The new [dst], the new [src] and the free store. *)
Definition sp_move_assign {T : Type} `{!ElementType T}
    (dst src : shared_ptr) (h : heap T) : shared_ptr * shared_ptr * heap T :=
  (src, sp_null, sp_release dst h).

(** [virtual ~Buffer() = default], for the default [ptr_t]: the members
    are destroyed, which releases the handle. *)
Definition Buffer_destroy {T : Type} `{!ElementType T}
    (b : Buffer T shared_ptr) (h : heap T) : heap T :=
  sp_release (mMemory b) h.

(** [Buffer &operator=(Buffer &&) = default], for the default [ptr_t]:
    member-wise move assignment; the new value of [*this], what is left of
    [other] (a [size_t] is moved by copying it), and the free store. *)
Definition Buffer_move_assign {T : Type} `{!ElementType T}
    (this other : Buffer T shared_ptr) (h : heap T)
  : Buffer T shared_ptr * Buffer T shared_ptr * heap T :=
  let '(m, src, h') := sp_move_assign (mMemory this) (mMemory other) h in
  ({| mMemory := m; mSize := mSize other |},
   {| mMemory := src; mSize := mSize other |}, h').

(** Writing the values [vs] through the cursors [ps], one after the other,
    as an algorithm over [[begin(), end())] does (the class comment shows
    the buffer used that way); [None] when a write goes outside the live
    elements. *)
Fixpoint store_all {T : Type} (h : heap T) (ps : list ptr) (vs : list T)
  : option (heap T) :=
  match ps, vs with
  | p :: ps', v :: vs' => h' ← store h p v; store_all h' ps' vs'
  | _, _ => Some h
  end.


(** * Properties *)

(** ** Machine integers *)

Lemma to_size_t_id (n : Z) : is_size_t n -> to_size_t n = n.
Proof.
  unfold is_size_t, to_size_t, SIZE_MAX. intros Hn.
  apply Z.mod_small. lia.
Qed.

Lemma to_size_t_range (z : Z) : is_size_t (to_size_t z).
Proof.
  unfold is_size_t, to_size_t, SIZE_MAX, SIZE_BITS.
  pose proof (Z.mod_pos_bound z (2 ^ 64) ltac:(lia)). lia.
Qed.

Lemma is_int_nonneg_size_t (i : Z) : is_int i -> 0 <= i -> is_size_t i.
Proof.
  unfold is_int, is_size_t, INT_MAX, INT_MIN, SIZE_MAX, INT_BITS, SIZE_BITS.
  simpl. lia.
Qed.

(** ** Outcomes and pointers *)

Lemma bind_Ret_inv {A B} (m : outcome A) (k : A -> outcome B) (b : B) :
  m ≫= k = Ret b -> exists a, m = Ret a /\ k a = Ret b.
Proof.
  destruct m as [a| | |]; try discriminate.
  intros Hk. exists a. split; [reflexivity | exact Hk].
Qed.

Lemma ptr_add_0 (p : ptr) : ptr_add p 0 = p.
Proof. destruct p as [b o]. unfold ptr_add. simpl. f_equal. lia. Qed.

Lemma ptr_add_add (p : ptr) (n m : Z) :
  ptr_add (ptr_add p n) m = ptr_add p (n + m).
Proof. unfold ptr_add. simpl. f_equal. lia. Qed.

Lemma ptr_add_inj (p : ptr) (n m : Z) : ptr_add p n = ptr_add p m -> n = m.
Proof. unfold ptr_add. intros Heq. injection Heq. lia. Qed.

(** ** Address arithmetic *)

Section PointerWrap.

Context {T : Type} `{!ElementType T}.

Lemma elem_modulus_gcd :
  elem_modulus T * Z.gcd (sizeof T) (2 ^ SIZE_BITS) = 2 ^ SIZE_BITS.
Proof.
  unfold elem_modulus.
  destruct (Z.gcd_divide_r (sizeof T) (2 ^ SIZE_BITS)) as [q Hq].
  assert (Hp : 0 < 2 ^ SIZE_BITS) by (vm_compute; reflexivity).
  set (g := Z.gcd (sizeof T) (2 ^ SIZE_BITS)) in *.
  assert (Hg : g <> 0) by (intros Hz; rewrite Hz in Hq; lia).
  rewrite Hq at 1. rewrite Z.div_mul by exact Hg. lia.
Qed.

Lemma elem_modulus_pos : 0 < elem_modulus T.
Proof.
  pose proof elem_modulus_gcd as Hm.
  pose proof (Z.gcd_nonneg (sizeof T) (2 ^ SIZE_BITS)) as Hg.
  assert (Hp : 0 < 2 ^ SIZE_BITS) by (vm_compute; reflexivity).
  set (M := elem_modulus T) in *. set (P := 2 ^ SIZE_BITS) in *.
  set (g := Z.gcd (sizeof T) P) in *. clearbody M P g.
  nia.
Qed.

(** A count of elements whose bytes fit [size_t] is below the modulus. *)
Lemma fits_below_elem_modulus (n : Z) :
  n * sizeof T <= SIZE_MAX -> n < elem_modulus T.
Proof.
  intros Hfit. pose proof elem_modulus_gcd as Hm.
  pose proof elem_modulus_pos as Hpos.
  pose proof (sizeof_pos (T:=T)) as Hs.
  pose proof (Z.gcd_nonneg (sizeof T) (2 ^ SIZE_BITS)) as Hg0.
  pose proof (Z.divide_pos_le _ _ Hs (Z.gcd_divide_l (sizeof T)
                                        (2 ^ SIZE_BITS))) as Hle.
  unfold SIZE_MAX in Hfit.
  set (M := elem_modulus T) in *. set (P := 2 ^ SIZE_BITS) in *.
  set (g := Z.gcd (sizeof T) P) in *. set (s := sizeof T) in *.
  clearbody M P g s.
  destruct (Z_lt_le_dec n M) as [Hlt|Hge]; [exact Hlt|].
  assert (Hg : 0 < g) by nia.
  assert (M * g <= n * s) by nia.
  lia.
Qed.

Lemma ptr_add_size_t_fits (p : ptr) (n : Z) :
  0 <= n -> n * sizeof T <= SIZE_MAX ->
  ptr_add_size_t p n = ptr_add p n.
Proof.
  intros Hn Hfit. unfold ptr_add_size_t.
  rewrite Z.mod_small; [reflexivity|].
  split; [exact Hn | apply fits_below_elem_modulus; exact Hfit].
Qed.

(** Reducing the count modulo [elem_modulus] leaves the byte displacement
    modulo [2 ^ 64], hence the address, as it is. *)
Lemma elem_modulus_same_address (n : Z) :
  ((n mod elem_modulus T) * sizeof T) mod 2 ^ SIZE_BITS
  = (n * sizeof T) mod 2 ^ SIZE_BITS.
Proof.
  pose proof elem_modulus_gcd as Hm.
  destruct (Z.gcd_divide_l (sizeof T) (2 ^ SIZE_BITS)) as [s' Hs'].
  pose proof elem_modulus_pos as Hpos.
  pose proof (Z_div_mod_eq_full n (elem_modulus T)) as Hn.
  assert (Hp : 2 ^ SIZE_BITS <> 0) by (vm_compute; discriminate).
  set (M := elem_modulus T) in *. set (P := 2 ^ SIZE_BITS) in *.
  set (g := Z.gcd (sizeof T) P) in *. set (s := sizeof T) in *.
  set (r := n mod M) in *. set (q := n / M) in *.
  clearbody M P g s r q.
  replace (n * s) with (r * s + (q * s') * P).
  - symmetry. apply Z.mod_add. exact Hp.
  - subst n s P. ring.
Qed.

(** Below the modulus, different counts reach different addresses. *)
Lemma elem_modulus_distinct_addresses (j k : Z) :
  0 <= j < elem_modulus T -> 0 <= k < elem_modulus T ->
  (j * sizeof T) mod 2 ^ SIZE_BITS = (k * sizeof T) mod 2 ^ SIZE_BITS ->
  j = k.
Proof.
  intros Hj Hk Heq. apply Z.cong_iff_ex in Heq as [c Hc].
  pose proof elem_modulus_gcd as Hm.
  destruct (Z.gcd_divide_l (sizeof T) (2 ^ SIZE_BITS)) as [s' Hs'].
  pose proof (Z.gcd_nonneg (sizeof T) (2 ^ SIZE_BITS)) as Hg0.
  pose proof (sizeof_pos (T:=T)) as Hspos.
  assert (Hg : Z.gcd (sizeof T) (2 ^ SIZE_BITS) <> 0).
  { intros Hz. rewrite Hz in Hs'. lia. }
  assert (Hone : Z.gcd (elem_modulus T) s' = 1).
  { rewrite Z.gcd_comm. unfold elem_modulus.
    pose proof (Z.gcd_div_gcd (sizeof T) (2 ^ SIZE_BITS) _ Hg eq_refl)
      as Hd.
    rewrite Hs' in Hd at 1. rewrite Z.div_mul in Hd by exact Hg.
    exact Hd. }
  set (M := elem_modulus T) in *. set (P := 2 ^ SIZE_BITS) in *.
  set (g := Z.gcd (sizeof T) P) in *. set (s := sizeof T) in *.
  clearbody M P g s.
  assert (Hdiv : (M | s' * (j - k))).
  { apply (Z.mul_divide_cancel_r _ _ g); [exact Hg|].
    exists c. subst s P.
    transitivity (j * (s' * g) - k * (s' * g)); [ring | exact Hc]. }
  apply Z.gauss in Hdiv; [|exact Hone].
  destruct Hdiv as [d Hd].
  destruct (Z.eq_dec d 0) as [->|Hd0]; [lia|].
  assert (M <= d * M \/ d * M <= - M) by nia. lia.
Qed.

End PointerWrap.

(** ** The handle types are smart pointers *)

Section SharedPtrHandle.

Context {T : Type} `{!ElementType T}.

Lemma sp_copy_get (p : shared_ptr) (h : heap T) :
  sp_get (sp_copy p h).1 = sp_get p.
Proof. unfold sp_copy. destruct (sp_ctrl p); reflexivity. Qed.

Lemma sp_copy_blocks (p : shared_ptr) (h : heap T) :
  blocks (sp_copy p h).2 = blocks h.
Proof. unfold sp_copy. destruct (sp_ctrl p); reflexivity. Qed.

Lemma sp_copy_avail (p : shared_ptr) (h : heap T) :
  avail (sp_copy p h).2 = avail h.
Proof. unfold sp_copy. destruct (sp_ctrl p); reflexivity. Qed.

Lemma sp_release_blocks_ne (p : shared_ptr) (h : heap T) (b : block) :
  sp_ctrl p <> Some b -> blocks (sp_release p h) !! b = blocks h !! b.
Proof.
  intros Hne. unfold sp_release.
  destruct (sp_ctrl p) as [c|]; [|reflexivity].
  destruct (use_count h !! c) as [[|[|k]]|]; try reflexivity.
  all: unfold delete_array; destruct (blocks h !! c); simpl; try reflexivity.
  all: apply lookup_delete_ne; congruence.
Qed.

Lemma sp_assign_get (d s : shared_ptr) (h : heap T) :
  sp_get (sp_assign d s h).1 = sp_get s.
Proof.
  unfold sp_assign. pose proof (sp_copy_get s h) as Hg.
  destruct (sp_copy s h) as [c h1]. exact Hg.
Qed.

Lemma sp_assign_blocks (d s : shared_ptr) (h : heap T) (b : block) :
  sp_owns h s b -> blocks (sp_assign d s h).2 !! b = blocks h !! b.
Proof.
  intros [Hc [k Hk]]. unfold sp_assign, sp_copy. rewrite Hc. simpl.
  destruct (decide (sp_ctrl d = Some b)) as [Hd|Hd].
  - unfold sp_release. rewrite Hd. simpl.
    rewrite lookup_alter_eq, Hk. reflexivity.
  - rewrite sp_release_blocks_ne by exact Hd. reflexivity.
Qed.

Global Instance shared_ptr_smart : SmartPointer T shared_ptr.
Proof.
  split.
  - reflexivity.
  - exact sp_copy_get.
  - exact sp_copy_blocks.
  - exact sp_copy_avail.
  - reflexivity.
  - exact sp_assign_get.
  - exact sp_assign_blocks.
Qed.

End SharedPtrHandle.

Global Instance raw_ptr_smart {T : Type} : SmartPointer T ptr.
Proof. split; reflexivity. Qed.

(** ** The assertion hook *)

Lemma snprintf_formatString file line condition conditionString :
  Printf.snprintf 1024 formatString
    [Printf.ArgStr file; Printf.ArgInt line;
     Printf.ArgInt condition; Printf.ArgStr conditionString]
  = Some (formatted_message file line condition conditionString).
Proof. reflexivity. Qed.

(** Whatever the arguments, the exception that leaves the hook carries the
    fixed string: the [catch (...)] clause also catches the exception that
    the [try] block throws on purpose. *)
Lemma assert_hook_always_fallback file line condition conditionString :
  assert_hook file line condition conditionString
  = Throw (OutOfRangeError OUT_OF_RANGE_STRING).
Proof.
  unfold assert_hook. rewrite snprintf_formatString. reflexivity.
Qed.

(** C1 (fails on the code): for the failed check of [buffer[10]] the
    diagnostic is formatted without failure and contains the file, the line
    and the text of the condition, yet the error that [assert_hook] raises
    carries the fixed fallback string, which contains none of them. *)
Theorem assert_hook_discards_diagnostic :
  let file := "cpp_buffer/buffer.h" in
  let text := "i >= 0 && static_cast<size_t>(i) < mSize" in
  let message := formatted_message file 147 0 text in
  Printf.snprintf 1024 formatString
    [Printf.ArgStr file; Printf.ArgInt 147;
     Printf.ArgInt 0; Printf.ArgStr text] = Some message
  /\ Printf.contains file message = true
  /\ Printf.contains "147" message = true
  /\ Printf.contains text message = true
  /\ assert_hook file 147 0 text = Throw (OutOfRangeError OUT_OF_RANGE_STRING)
  /\ Printf.contains file OUT_OF_RANGE_STRING = false
  /\ Printf.contains "147" OUT_OF_RANGE_STRING = false
  /\ Printf.contains text OUT_OF_RANGE_STRING = false.
Proof. vm_compute. repeat split. Qed.

(** ** Element access *)

Section BufferProperties.

Context {T H : Type} `{!ElementType T} `{!OwnershipHandle T H}.

(** The condition of the assertion in [operator[]], for an [int] index
    and a size [n]. *)
Lemma index_condition (n i : Z) :
  is_int i ->
  bool_decide (i >= 0) && bool_decide (to_size_t i < n)
  = bool_decide (0 <= i < n).
Proof.
  intros Hi. destruct (decide (i >= 0)) as [Hge|Hlt].
  - rewrite (bool_decide_eq_true_2 _ Hge). simpl.
    rewrite to_size_t_id by (apply is_int_nonneg_size_t; [exact Hi | lia]).
    apply bool_decide_ext. lia.
  - rewrite (bool_decide_eq_false_2 _ Hlt). simpl.
    symmetry. apply bool_decide_eq_false_2. lia.
Qed.

(** [operator[]] as a function of [NDEBUG] alone. *)
Lemma operator_index_eq (cfg : config) (b : Buffer T H) (i : Z) :
  is_int i ->
  operator_index cfg b i
  = if NDEBUG cfg then Ret (ptr_add (get (mMemory b)) i)
    else if bool_decide (0 <= i < mSize b)
         then Ret (ptr_add (get (mMemory b)) i)
         else Aborted.
Proof.
  intros Hi. unfold operator_index, assert.
  rewrite (index_condition (mSize b) i Hi).
  destruct (NDEBUG cfg); [reflexivity|].
  destruct (bool_decide (0 <= i < mSize b)); reflexivity.
Qed.

Lemma operator_index_in_range (cfg : config) (b : Buffer T H) (i : Z) :
  is_int i -> 0 <= i < mSize b ->
  operator_index cfg b i = Ret (ptr_add (get (mMemory b)) i).
Proof.
  intros Hi Hr. rewrite (operator_index_eq cfg b i Hi).
  rewrite (bool_decide_eq_true_2 _ Hr). destruct (NDEBUG cfg); reflexivity.
Qed.

(** C2 (as amended): [operator[]] validates [0 <= index < size] with the
    [assert] of [<cassert>], not with the selectable strategy: its result is
    the same under any two configurations that agree on [NDEBUG]; without
    [NDEBUG] an index in range yields the element and any other index, such
    as [size] or [-1], aborts; with [NDEBUG] nothing is validated. *)
Theorem operator_index_uses_cassert (cfg : config) (b : Buffer T H) (i : Z) :
  is_int i ->
  (forall cfg', NDEBUG cfg' = NDEBUG cfg ->
     operator_index cfg' b i = operator_index cfg b i)
  /\ (NDEBUG cfg = false -> 0 <= i < size b ->
      operator_index cfg b i = Ret (ptr_add (get (mMemory b)) i))
  /\ (NDEBUG cfg = false -> ~ 0 <= i < size b ->
      operator_index cfg b i = Aborted)
  /\ (NDEBUG cfg = false -> i = size b \/ i = -1 ->
      operator_index cfg b i = Aborted)
  /\ (NDEBUG cfg = true ->
      operator_index cfg b i = Ret (ptr_add (get (mMemory b)) i)).
Proof.
  intros Hi. unfold size.
  assert (Hout : NDEBUG cfg = false -> ~ 0 <= i < mSize b ->
                 operator_index cfg b i = Aborted).
  { intros Hn Hr. rewrite (operator_index_eq cfg b i Hi), Hn.
    rewrite (bool_decide_eq_false_2 _ Hr). reflexivity. }
  repeat split.
  - intros cfg' Hn. rewrite !operator_index_eq by exact Hi.
    rewrite Hn. reflexivity.
  - intros _ Hr. apply operator_index_in_range; assumption.
  - exact Hout.
  - intros Hn [Heq|Heq]; apply Hout; try exact Hn; lia.
  - intros Hn. rewrite (operator_index_eq cfg b i Hi), Hn. reflexivity.
Qed.

End BufferProperties.

(** C2 as stated fails at [buffer[10]] and [buffer[-1]] on a buffer of
    size 10: under the exception-raising strategy both abort and no
    exception is raised, and with bounds checking disabled both are still
    validated. *)
Lemma operator_index_ignores_strategy :
  exception_strategy cfg_exceptions
  /\ operator_index cfg_exceptions sample_buffer 10 = Aborted
  /\ operator_index cfg_exceptions sample_buffer (-1) = Aborted
  /\ (forall what, operator_index cfg_exceptions sample_buffer 10
                   <> Throw (OutOfRangeError what))
  /\ checks_disabled cfg_disabled
  /\ operator_index cfg_disabled sample_buffer 10 = Aborted
  /\ operator_index cfg_disabled sample_buffer (-1) = Aborted.
Proof. repeat split; discriminate. Qed.

Lemma operator_index_uses_cassert_witness :
  operator_index cfg_exceptions sample_buffer 10 = Aborted.
Proof.
  apply (operator_index_uses_cassert cfg_exceptions sample_buffer 10).
  - vm_compute. split; discriminate.
  - reflexivity.
  - left. reflexivity.
Defined.

(** ** Construction and size *)

Section ConstructionProperties.

Context {T H : Type} `{!ElementType T} `{!OwnershipHandle T H}.

Lemma new_array_fits (n : Z) (h h' : heap T) (a : block) :
  new_array n h = (Ret a, h') -> n * sizeof T <= SIZE_MAX.
Proof.
  unfold new_array. intros Hnew.
  destruct (decide (SIZE_MAX < n * sizeof T)); [discriminate|].
  lia.
Qed.

Lemma new_shared_fits (n : Z) (h h' : heap T) (p : shared_ptr) :
  new_shared n h = (Ret p, h') -> n * sizeof T <= SIZE_MAX.
Proof.
  unfold new_shared. intros Hnew.
  destruct (new_array n h) as [r h1] eqn:Hr.
  destruct r as [a| | |]; try discriminate.
  exact (new_array_fits n h h1 a Hr).
Qed.

Lemma Buffer_new_inv (n : Z) (h h' : heap T) (b : Buffer T shared_ptr) :
  Buffer_new n h = (Ret b, h') ->
  exists p, new_shared n h = (Ret p, h') /\ b = mkBuffer p n.
Proof.
  unfold Buffer_new. intros Hnew.
  destruct (new_shared n h) as [r h1].
  destruct r as [p| | |]; simpl in Hnew; try discriminate.
  injection Hnew as <- <-. exists p. split; reflexivity.
Qed.

(** [Buffer(size_t)] does construct a buffer when the byte size fits
    [size_t] and the free store. *)
Lemma Buffer_new_succeeds (n : Z) (h : heap T) :
  n * sizeof T <= SIZE_MAX -> n * sizeof T <= avail h ->
  exists b h', Buffer_new n h = (Ret b, h') /\ mSize b = n.
Proof.
  intros Hfit Hav. unfold Buffer_new, new_shared, new_array.
  destruct (decide (SIZE_MAX < n * sizeof T)); [lia|].
  destruct (decide (avail h < n * sizeof T)); [lia|].
  simpl. eexists _, _. split; reflexivity.
Qed.

(** C3 (as amended): a buffer constructed with a size [n] of type [size_t]
    by any of the four constructor forms reports [size() == n], and
    [size_of] returns [n * sizeof(T)] reduced modulo [2 ^ 64]; that is
    [n * sizeof(T)] itself whenever the product fits [size_t], which it
    always does for a buffer that [Buffer(size_t)] allocated. *)
Theorem size_and_size_of_after_construction (n : Z) :
  is_size_t n ->
  (forall (p : H) (h : heap T),
     let b := (Buffer_of_handle p n h).1 in
     size b = n /\ size_of b = (n * sizeof T) mod 2 ^ 64
     /\ (n * sizeof T <= SIZE_MAX -> size_of b = n * sizeof T))
  /\ (forall p : H,
       let b := (Buffer_of_rvalue (T:=T) p n).1 in
       size b = n /\ size_of b = (n * sizeof T) mod 2 ^ 64
       /\ (n * sizeof T <= SIZE_MAX -> size_of b = n * sizeof T))
  /\ (forall (A : Type) (alloc : Allocator T H A) (a : A) (h : heap T)
        (b : Buffer T H),
       (Buffer_of_allocator n a h).1.1 = Ret b ->
       size b = n /\ size_of b = (n * sizeof T) mod 2 ^ 64
       /\ (n * sizeof T <= SIZE_MAX -> size_of b = n * sizeof T))
  /\ (forall (h h' : heap T) (b : Buffer T shared_ptr),
       Buffer_new n h = (Ret b, h') ->
       size b = n /\ size_of b = n * sizeof T)
  /\ (forall h : heap T,
       n * sizeof T <= SIZE_MAX -> n * sizeof T <= avail h ->
       exists b h', Buffer_new n h = (Ret b, h')).
Proof.
  intros Hn.
  assert (Hgen : forall H' (b : Buffer T H'), mSize b = n ->
            size b = n /\ size_of b = (n * sizeof T) mod 2 ^ 64
            /\ (n * sizeof T <= SIZE_MAX -> size_of b = n * sizeof T)).
  { intros H' b Hb. unfold size_of, size_t_mul, size. rewrite Hb.
    split; [reflexivity|]. split; [reflexivity|].
    intros Hfit. apply to_size_t_id. split; [|exact Hfit].
    pose proof (sizeof_pos (T:=T)). destruct Hn. nia. }
  repeat apply conj.
  - intros p h b. apply Hgen. subst b. unfold Buffer_of_handle.
    destruct (copy_construct p h). reflexivity.
  - intros p b. apply Hgen. subst b. unfold Buffer_of_rvalue.
    destruct (move_construct p). reflexivity.
  - intros A alloc a h b. unfold Buffer_of_allocator.
    destruct (allocate a n h) as [[r a'] h']. simpl.
    destruct r as [m| | |]; simpl; try discriminate.
    intros [= <-]. apply Hgen. reflexivity.
  - intros h h' b Hnew.
    destruct (Buffer_new_inv n h h' b Hnew) as [p [Hp ->]].
    pose proof (new_shared_fits n h h' p Hp) as Hfit.
    destruct (Hgen _ (mkBuffer (T:=T) p n) eq_refl) as [Hs [_ Hex]].
    split; [exact Hs | exact (Hex Hfit)].
  - intros h Hfit Hav.
    destruct (Buffer_new_succeeds n h Hfit Hav) as [b [h' [Hb _]]].
    exists b, h'. exact Hb.
Qed.

End ConstructionProperties.

(** C3 as stated fails for [Buffer<int>(handle, 2^62)]: [size()] is [2^62]
    and [size_of] returns 0, not [2^62 * sizeof(int)]. *)
Lemma size_of_wraps :
  let b := (Buffer_of_handle sample_handle (2 ^ 62) sample_heap).1 in
  is_size_t (2 ^ 62)
  /\ size b = 2 ^ 62
  /\ size_of b = 0
  /\ size_of b <> 2 ^ 62 * sizeof Z.
Proof. vm_compute. repeat split; discriminate. Qed.

Lemma size_and_size_of_after_construction_witness :
  let b := (Buffer_of_handle sample_handle 10 sample_heap).1 in
  size b = 10 /\ size_of b = (10 * sizeof Z) mod 2 ^ 64
  /\ (10 * sizeof Z <= SIZE_MAX -> size_of b = 10 * sizeof Z).
Proof.
  apply (size_and_size_of_after_construction (T:=Z) (H:=shared_ptr) 10).
  vm_compute. split; discriminate.
Defined.

Section HandleConstructors.

Context {T H : Type} `{!ElementType T} `{!OwnershipHandle T H}
        `{!SmartPointer T H}.

(** C7: [Buffer(handle, size)] and [Buffer(handle_rvalue, size)] keep the
    caller's handle (the stored handle designates the same memory) and the
    size exactly as given, whatever its value; the first leaves the
    allocations and the capacity of the free store as they were, and the
    second does not touch the free store at all. *)
Theorem handle_constructors_store_arguments (p : H) (s : Z) (h : heap T) :
  (get (mMemory (Buffer_of_handle p s h).1) = get p
   /\ size (Buffer_of_handle p s h).1 = s
   /\ blocks (Buffer_of_handle p s h).2 = blocks h
   /\ avail (Buffer_of_handle p s h).2 = avail h)
  /\ (get (mMemory (Buffer_of_rvalue (T:=T) p s).1) = get p
      /\ size (Buffer_of_rvalue (T:=T) p s).1 = s).
Proof.
  unfold Buffer_of_handle, Buffer_of_rvalue, size.
  pose proof (copy_construct_get p h) as Hg.
  pose proof (copy_construct_blocks p h) as Hb.
  pose proof (copy_construct_avail p h) as Ha.
  pose proof (move_construct_get p) as Hm.
  destruct (copy_construct p h) as [m h'].
  destruct (move_construct p) as [m' src].
  simpl in *. repeat split; assumption.
Qed.

(** C8: [Buffer(size, allocator)] calls [allocator.allocate(size)] once,
    on the state it was entered with: when the call returns a handle, the
    buffer holds exactly that handle and [size]; when it raises an error,
    the constructor raises the same error; either way the allocator and
    the free store are left as that one call left them. *)
Theorem allocator_constructor_propagates {A : Type} `{!Allocator T H A}
    (n : Z) (a : A) (h : heap T) :
  Buffer_of_allocator n a h
  = match allocate a n h with
    | (Ret m, a', h') => (Ret {| mMemory := m; mSize := n |}, a', h')
    | (Throw e, a', h') => (Throw e, a', h')
    | (Aborted, a', h') => (Aborted, a', h')
    | (Undefined, a', h') => (Undefined, a', h')
    end.
Proof.
  unfold Buffer_of_allocator.
  destruct (allocate a n h) as [[r a'] h'].
  destruct r; reflexivity.
Qed.

(** C9: a default-constructed buffer has size 0, byte size 0 and a null
    handle; its cursors coincide, no index lies in [[0, size)], and with
    assertions compiled in every index aborts. *)
Theorem default_buffer_is_empty :
  size (Buffer_default (T:=T) (H:=H)) = 0
  /\ size_of (Buffer_default (T:=T) (H:=H)) = 0
  /\ get (mMemory (Buffer_default (T:=T) (H:=H))) = nullptr
  /\ begin (Buffer_default (T:=T) (H:=H)) = nullptr
  /\ end_ (Buffer_default (T:=T) (H:=H)) = nullptr
  /\ (forall i : Z, ~ 0 <= i < size (Buffer_default (T:=T) (H:=H)))
  /\ (forall (u c e : bool) (i : Z),
        operator_index (Config false u c e)
          (Buffer_default (T:=T) (H:=H)) i = Aborted).
Proof.
  unfold begin, end_, size_of, size, Buffer_default. simpl.
  rewrite get_null_handle.
  repeat split; try lia.
  intros u c e i. unfold operator_index, assert. simpl.
  destruct (bool_decide (i >= 0)) eqn:Hi; simpl; [|reflexivity].
  apply bool_decide_eq_true_1 in Hi.
  rewrite bool_decide_eq_false_2; [reflexivity|].
  pose proof (to_size_t_range i) as [Hr _]. lia.
Qed.

End HandleConstructors.

(** With [shared_ptr] the copying constructor stores the very handle and
    adds one owner; the moving one leaves the caller's handle empty.  The
    size is taken on trust: here 1000 for an array of 10 elements. *)
Example handle_constructors_shared_ptr :
  Buffer_of_handle sample_handle 1000 sample_heap
  = (mkBuffer sample_handle 1000,
     Heap (blocks sample_heap) {[ 1%positive := 2%nat ]} 0)
  /\ Buffer_of_rvalue (T:=Z) sample_handle 1000
     = (mkBuffer sample_handle 1000, sp_null).
Proof. split; reflexivity. Qed.

Lemma handle_constructors_store_arguments_witness :
  (get (mMemory (Buffer_of_handle sample_handle 1000 sample_heap).1)
   = get sample_handle
   /\ size (Buffer_of_handle sample_handle 1000 sample_heap).1 = 1000
   /\ blocks (Buffer_of_handle sample_handle 1000 sample_heap).2
      = blocks sample_heap
   /\ avail (Buffer_of_handle sample_handle 1000 sample_heap).2
      = avail sample_heap)
  /\ (get (mMemory (Buffer_of_rvalue (T:=Z) sample_handle 1000).1)
      = get sample_handle
      /\ size (Buffer_of_rvalue (T:=Z) sample_handle 1000).1 = 1000).
Proof.
  exact (handle_constructors_store_arguments (T:=Z) sample_handle 1000
           sample_heap).
Defined.

(** [Buffer<int>()], with the default [ptr_t]. *)
Lemma default_buffer_is_empty_witness :
  size (Buffer_default (T:=Z) (H:=shared_ptr)) = 0
  /\ size_of (Buffer_default (T:=Z) (H:=shared_ptr)) = 0
  /\ get (mMemory (Buffer_default (T:=Z) (H:=shared_ptr))) = nullptr
  /\ begin (Buffer_default (T:=Z) (H:=shared_ptr)) = nullptr
  /\ end_ (Buffer_default (T:=Z) (H:=shared_ptr)) = nullptr
  /\ (forall i : Z, ~ 0 <= i < size (Buffer_default (T:=Z) (H:=shared_ptr)))
  /\ (forall (u c e : bool) (i : Z),
        operator_index (Config false u c e)
          (Buffer_default (T:=Z) (H:=shared_ptr)) i = Aborted).
Proof. exact (default_buffer_is_empty (T:=Z) (H:=shared_ptr)). Defined.

(** An allocator that would serve a second call is not asked again: the
    constructor leaves with the allocator's own exception after one call. *)
Lemma allocator_constructor_propagates_witness :
  let a := CountingAllocator 0 1 in
  Buffer_of_allocator 10 a (empty_heap 100)
  = (Throw (user_exception "pool not ready"),
     CountingAllocator 1 1, empty_heap 100)
  /\ exists p h',
       allocate (CountingAllocator 1 1) 10 (empty_heap 100)
       = (Ret p, CountingAllocator 2 1, h').
Proof.
  split.
  - rewrite allocator_constructor_propagates. reflexivity.
  - eexists _, _. vm_compute. reflexivity.
Defined.

(** ** References and aliasing *)

Section MemoryProperties.

Context {T : Type} `{!ElementType T}.

Lemma store_load (h h' : heap T) (p : ptr) (v : T) :
  store h p v = Some h' -> load h' p = Some v.
Proof.
  unfold store. destruct p as [[a|] o]; simpl; [|discriminate].
  destruct (blocks h !! a) as [cells|]; simpl; [|discriminate].
  destruct (decide (0 <= o < Z.of_nat (length cells))) as [Hr|];
    [|discriminate].
  intros [= <-]. unfold load, deref. simpl.
  rewrite lookup_insert_eq. simpl.
  rewrite decide_True by lia.
  rewrite list_lookup_insert_eq by lia. reflexivity.
Qed.

Lemma store_succeeds (h : heap T) (p : ptr) (v : T) (a : block)
    (cells : list (option T)) :
  blk p = Some a -> blocks h !! a = Some cells ->
  0 <= off p < Z.of_nat (length cells) ->
  exists h', store h p v = Some h'.
Proof.
  intros Ha Hc Hr. unfold store. rewrite Ha. simpl. rewrite Hc. simpl.
  rewrite decide_True by exact Hr. eexists. reflexivity.
Qed.

(** A write leaves the other elements as they were. *)
Lemma store_load_other (h h' : heap T) (p q : ptr) (v : T) :
  store h p v = Some h' -> p <> q -> load h' q = load h q.
Proof.
  unfold store. destruct p as [[a|] o]; simpl; [|discriminate].
  destruct (blocks h !! a) as [cells|] eqn:Hc; simpl; [|discriminate].
  destruct (decide (0 <= o < Z.of_nat (length cells))) as [Hr|];
    [|discriminate].
  intros [= <-] Hne. unfold load, deref. simpl.
  destruct q as [[a'|] o']; simpl; [|reflexivity].
  destruct (decide (a = a')) as [<-|Ha].
  - rewrite lookup_insert_eq, Hc. simpl.
    destruct (decide (0 <= o')) as [Ho|]; [|reflexivity].
    rewrite list_lookup_insert_ne; [reflexivity|].
    intros Heq. apply Hne. f_equal. lia.
  - rewrite lookup_insert_ne by exact Ha. reflexivity.
Qed.

End MemoryProperties.

Section AliasingProperties.

Context {T H : Type} `{!ElementType T} `{!OwnershipHandle T H}.

Lemma Buffer_valid_store (h : heap T) (b : Buffer T H) (i : Z) (v : T) :
  Buffer_valid h b -> 0 <= i < mSize b ->
  exists h', store h (ptr_add (get (mMemory b)) i) v = Some h'.
Proof.
  intros [a [cells [Ha [Hc [Ho Hlen]]]]] Hi.
  apply (store_succeeds h _ v a cells); simpl; [exact Ha | exact Hc | lia].
Qed.

(** A view is valid in every free store that holds the same allocation. *)
Lemma Buffer_valid_transfer (h h' : heap T) (b c : Buffer T H) :
  Buffer_valid h b ->
  get (mMemory c) = get (mMemory b) -> mSize c = mSize b ->
  (forall a, blk (get (mMemory b)) = Some a ->
             blocks h' !! a = blocks h !! a) ->
  Buffer_valid h' c.
Proof.
  intros [a [cells [Ha [Hc [Ho Hlen]]]]] Hg Hs Hb.
  exists a, cells. rewrite Hg, Hs, (Hb a Ha). auto.
Qed.

Lemma cpp_buffer_assert_true (cfg : config) (loc : source_location)
    (text : string) :
  cpp_buffer_assert cfg loc true text = Ret tt.
Proof.
  unfold cpp_buffer_assert, assert.
  destruct (CPPBUFFER_USES_ASSERT cfg), (CPPBUFFER_ASSERT_USES_CASSERT cfg),
    (NDEBUG cfg); reflexivity.
Qed.

(** The reference a slice hands out is the element at the translated
    index. *)
Lemma Slice_index_Ret (cfg : config) (loc : source_location)
    (s : Slice T H) (k : Z) (q : ptr) :
  Slice_index cfg loc s k = Ret q ->
  q = ptr_add (get (slice_memory s)) (Slice_backing_index s k).
Proof.
  unfold Slice_index. intros Hq.
  apply bind_Ret_inv in Hq as [[] [_ Hq]].
  apply bind_Ret_inv in Hq as [[] [_ Hq]].
  injection Hq as <-. reflexivity.
Qed.

(** C5: for an [int] index [i] in [[0, size)] of a valid buffer,
    [buffer[i]] (mutable or const) is a reference to the [i]-th element of
    the backing memory under every build configuration; a write through it
    succeeds and is read back through every other buffer, and through every
    slice, that shares the allocation and has an index designating the same
    element. *)
Theorem element_reference_is_shared (cfg : config) (h : heap T)
    (b : Buffer T H) (i : Z) (v : T) :
  is_int i -> 0 <= i < size b -> Buffer_valid h b ->
  let r := ptr_add (get (mMemory b)) i in
  operator_index cfg b i = Ret r
  /\ operator_index_const cfg b i = Ret r
  /\ exists h',
       store h r v = Some h'
       /\ (forall (cfg' : config) (b' : Buffer T H) (j : Z),
             is_int j -> 0 <= j < size b' ->
             blk (get (mMemory b')) = blk (get (mMemory b)) ->
             off (get (mMemory b')) + j = off (get (mMemory b)) + i ->
             exists q, operator_index_const cfg' b' j = Ret q
                       /\ load h' q = Some v)
       /\ (forall (cfg' : config) (loc : source_location)
                  (s : Slice T H) (k : Z) (q : ptr),
             Slice_index cfg' loc s k = Ret q ->
             blk (get (slice_memory s)) = blk (get (mMemory b)) ->
             off (get (slice_memory s)) + Slice_backing_index s k
             = off (get (mMemory b)) + i ->
             load h' q = Some v).
Proof.
  intros Hi Hr Hv r. unfold size in *.
  split; [apply operator_index_in_range; assumption|].
  split; [apply (operator_index_in_range cfg b i); assumption|].
  destruct (Buffer_valid_store h b i v Hv Hr) as [h' Hst].
  exists h'. split; [exact Hst|].
  pose proof (store_load h h' r v Hst) as Hld.
  split.
  - intros cfg' b' j Hj Hjr Hblk Hoff.
    exists (ptr_add (get (mMemory b')) j). split.
    + apply (operator_index_in_range cfg' b' j); assumption.
    + replace (ptr_add (get (mMemory b')) j) with r; [exact Hld|].
      subst r. unfold ptr_add. rewrite Hblk. f_equal. lia.
  - intros cfg' loc s k q Hq Hblk Hoff.
    rewrite (Slice_index_Ret cfg' loc s k q Hq).
    replace (ptr_add (get (slice_memory s)) (Slice_backing_index s k))
      with r; [exact Hld|].
    subst r. unfold ptr_add. rewrite Hblk. f_equal. lia.
Qed.

End AliasingProperties.

Lemma sample_buffer_valid : Buffer_valid sample_heap sample_buffer.
Proof.
  exists 1%positive, (replicate 10 (Some 0)).
  repeat split; vm_compute; discriminate.
Qed.

(** A write through [buffer[3]] is read back through a shorter buffer over
    the same handle and through [buffer.slice<2>(1, 9)[1]]. *)
Lemma element_reference_is_shared_witness :
  exists h',
    store sample_heap (Ptr (Some 1%positive) 3) 42 = Some h'
    /\ (exists q, operator_index_const cfg_disabled
                    (mkBuffer (T:=Z) sample_handle 5) 3 = Ret q
                  /\ load h' q = Some 42)
    /\ (exists q, Slice_index cfg_exceptions (SourceLocation "buffer.h" 0)
                    (slice 2 sample_buffer 1 9 sample_heap).1 1 = Ret q
                  /\ load h' q = Some 42).
Proof.
  destruct (element_reference_is_shared cfg_exceptions sample_heap
              sample_buffer 3 42) as [_ [_ [h' [Hst [Hbuf Hsl]]]]].
  - vm_compute. split; discriminate.
  - vm_compute. split; [discriminate | reflexivity].
  - exact sample_buffer_valid.
  - exists h'. split; [exact Hst|]. split.
    + apply Hbuf.
      * vm_compute. split; discriminate.
      * vm_compute. split; [discriminate | reflexivity].
      * reflexivity.
      * reflexivity.
    + exists (Ptr (Some 1%positive) 3). split; [reflexivity|].
      apply (Hsl cfg_exceptions (SourceLocation "buffer.h" 0)
               (slice 2 sample_buffer 1 9 sample_heap).1 1); reflexivity.
Defined.

(** ** Copies *)

Section CopyProperties.

Context {T H : Type} `{!ElementType T} `{!OwnershipHandle T H}
        `{!SmartPointer T H}.

Lemma Buffer_copy_members (b : Buffer T H) (h : heap T) :
  mSize (Buffer_copy b h).1 = mSize b
  /\ get (mMemory (Buffer_copy b h).1) = get (mMemory b)
  /\ blocks (Buffer_copy b h).2 = blocks h.
Proof.
  unfold Buffer_copy.
  pose proof (copy_construct_get (mMemory b) h) as Hg.
  pose proof (copy_construct_blocks (mMemory b) h) as Hb.
  destruct (copy_construct (mMemory b) h) as [m h'].
  simpl in *. auto.
Qed.

Lemma Buffer_copy_assign_members (this b : Buffer T H) (h : heap T) :
  mSize (Buffer_copy_assign this b h).1 = mSize b
  /\ get (mMemory (Buffer_copy_assign this b h).1) = get (mMemory b)
  /\ (forall a, owns h (mMemory b) a ->
        blocks (Buffer_copy_assign this b h).2 !! a = blocks h !! a).
Proof.
  unfold Buffer_copy_assign.
  pose proof (copy_assign_get (mMemory this) (mMemory b) h) as Hg.
  pose proof (copy_assign_blocks (mMemory this) (mMemory b) h) as Hb.
  destruct (copy_assign (mMemory this) (mMemory b) h) as [m h'].
  simpl in *. auto.
Qed.

(** Writing through [c[i]] and reading through [b[i]], for two buffers
    with the same pointer. *)
Lemma write_copy_read_original (cfg cfg' : config) (h : heap T)
    (b c : Buffer T H) (i : Z) (v : T) :
  is_int i -> 0 <= i < mSize b ->
  mSize c = mSize b -> get (mMemory c) = get (mMemory b) ->
  Buffer_valid h c ->
  exists r h',
    operator_index cfg c i = Ret r
    /\ store h r v = Some h'
    /\ exists q, operator_index_const cfg' b i = Ret q
                 /\ load h' q = Some v.
Proof.
  intros Hi Hr Hs Hg Hv.
  assert (Hrc : 0 <= i < mSize c) by (rewrite Hs; exact Hr).
  destruct (Buffer_valid_store h c i v Hv Hrc) as [h' Hst].
  exists (ptr_add (get (mMemory c)) i), h'.
  split; [apply operator_index_in_range; assumption|].
  split; [exact Hst|].
  exists (ptr_add (get (mMemory b)) i).
  split; [apply (operator_index_in_range cfg' b i); assumption|].
  rewrite <- Hg. exact (store_load h h' _ v Hst).
Qed.

(** C10: a copy-constructed and a copy-assigned buffer have the size and
    the [begin()] (hence the [end()]) of the original; copy construction
    leaves every allocation as it was, copy assignment leaves the
    allocation the original owns as it was; and a write through an element
    of the copy is read back through the same element of the original. *)
Theorem copies_are_shallow (h : heap T) (this b : Buffer T H) :
  (size (Buffer_copy b h).1 = size b
   /\ begin (Buffer_copy b h).1 = begin b
   /\ end_ (Buffer_copy b h).1 = end_ b
   /\ blocks (Buffer_copy b h).2 = blocks h)
  /\ (size (Buffer_copy_assign this b h).1 = size b
      /\ begin (Buffer_copy_assign this b h).1 = begin b
      /\ end_ (Buffer_copy_assign this b h).1 = end_ b
      /\ (forall a, owns h (mMemory b) a ->
            blocks (Buffer_copy_assign this b h).2 !! a = blocks h !! a))
  /\ (forall (cfg cfg' : config) (i : Z) (v : T),
        is_int i -> 0 <= i < size b -> Buffer_valid h b ->
        exists r h',
          operator_index cfg (Buffer_copy b h).1 i = Ret r
          /\ store (Buffer_copy b h).2 r v = Some h'
          /\ exists q, operator_index_const cfg' b i = Ret q
                       /\ load h' q = Some v)
  /\ (forall (cfg cfg' : config) (i : Z) (v : T),
        is_int i -> 0 <= i < size b ->
        Buffer_valid h b -> Buffer_owns h b ->
        exists r h',
          operator_index cfg (Buffer_copy_assign this b h).1 i = Ret r
          /\ store (Buffer_copy_assign this b h).2 r v = Some h'
          /\ exists q, operator_index_const cfg' b i = Ret q
                       /\ load h' q = Some v).
Proof.
  destruct (Buffer_copy_members b h) as [Hs [Hg Hb]].
  destruct (Buffer_copy_assign_members this b h) as [Hs' [Hg' Hb']].
  unfold size, begin, end_.
  split; [rewrite Hs, Hg; auto|].
  split; [rewrite Hs', Hg'; auto|].
  split.
  - intros cfg cfg' i v Hi Hr Hv.
    apply write_copy_read_original; try assumption.
    apply (Buffer_valid_transfer h _ b); try assumption.
    intros a _. rewrite Hb. reflexivity.
  - intros cfg cfg' i v Hi Hr Hv [a [Ha Ho]].
    apply write_copy_read_original; try assumption.
    apply (Buffer_valid_transfer h _ b); try assumption.
    intros a' Ha'. rewrite Ha in Ha'. injection Ha' as <-.
    apply Hb'. exact Ho.
Qed.

End CopyProperties.

(** Assigning [sample_buffer] over a buffer that holds the last share of
    another array releases that array and not the one of [sample_buffer];
    a write through the assigned buffer is read through [sample_buffer]. *)
Lemma copies_are_shallow_witness :
  let h := Heap {[ 1%positive := replicate 10 (Some 0);
                   2%positive := replicate 4 (Some 7) ]}
                {[ 1%positive := 1%nat; 2%positive := 1%nat ]} 0 in
  let other := mkBuffer (T:=Z)
                 (SharedPtr (Ptr (Some 2%positive) 0) (Some 2%positive)) 4 in
  blocks (Buffer_copy_assign other sample_buffer h).2 !! 2%positive = None
  /\ exists r h',
       operator_index cfg_exceptions
         (Buffer_copy_assign other sample_buffer h).1 3 = Ret r
       /\ store (Buffer_copy_assign other sample_buffer h).2 r 42 = Some h'
       /\ exists q, operator_index_const cfg_exceptions sample_buffer 3 = Ret q
                    /\ load h' q = Some 42.
Proof.
  intros h other. split; [reflexivity|].
  apply (copies_are_shallow h other sample_buffer).
  - vm_compute. split; discriminate.
  - vm_compute. split; [discriminate | reflexivity].
  - exists 1%positive, (replicate 10 (Some 0)).
    repeat split; vm_compute; discriminate.
  - exists 1%positive. split; [reflexivity|].
    split; [reflexivity|]. exists 0%nat. reflexivity.
Defined.

(** ** Cursors *)

Lemma traverse_range (n : nat) :
  forall (p : ptr) (fuel : nat),
    (n < fuel)%nat ->
    traverse fuel p (ptr_add p (Z.of_nat n))
    = Some ((fun k : nat => ptr_add p (Z.of_nat k)) <$> seq 0 n).
Proof.
  induction n as [|n IH]; intros p fuel Hfuel.
  - destruct fuel as [|fuel]; [lia|]. simpl.
    rewrite ptr_add_0. rewrite decide_True by reflexivity. reflexivity.
  - destruct fuel as [|fuel]; [lia|]. simpl traverse.
    rewrite decide_False.
    2:{ intros Heq. rewrite <- (ptr_add_0 p) in Heq at 1.
        apply ptr_add_inj in Heq. lia. }
    replace (ptr_add p (Z.of_nat (S n)))
      with (ptr_add (ptr_add p 1) (Z.of_nat n))
      by (rewrite ptr_add_add; f_equal; lia).
    rewrite (IH (ptr_add p 1) fuel) by lia.
    simpl. rewrite ptr_add_0. do 2 f_equal.
    rewrite <- fmap_S_seq, <- list_fmap_compose.
    apply list_fmap_ext. intros _ k _. simpl.
    rewrite ptr_add_add. f_equal. lia.
Qed.

Section CursorProperties.

Context {T H : Type} `{!ElementType T} `{!OwnershipHandle T H}.

Lemma element_addresses_lookup (b : Buffer T H) (k : Z) :
  0 <= k < mSize b ->
  element_addresses b !! Z.to_nat k = Some (ptr_add (get (mMemory b)) k).
Proof.
  intros Hk. unfold element_addresses.
  rewrite list_lookup_fmap, lookup_seq_lt by lia.
  simpl. do 2 f_equal. lia.
Qed.

(** C6 (as amended): for a buffer whose byte size [size() * sizeof(T)]
    fits [size_t], as it does for every buffer that lies in an
    allocation, [begin()] and [end()], mutable and const, are the raw
    pointer of the handle and that pointer advanced by [size()] elements;
    the loop from [begin()] to [end()] terminates and visits exactly
    [size()] positions, the [k]-th of which is the reference
    [buffer[k]]. *)
Theorem begin_end_span_the_elements (b : Buffer T H) :
  is_size_t (size b) -> size b * sizeof T <= SIZE_MAX ->
  begin b = get (mMemory b)
  /\ begin_const b = begin b
  /\ end_ b = ptr_add (begin b) (size b)
  /\ end_const b = end_ b
  /\ (forall fuel : nat,
        (Z.to_nat (size b) < fuel)%nat ->
        traverse fuel (begin b) (end_ b) = Some (element_addresses b)
        /\ traverse fuel (begin_const b) (end_const b)
           = Some (element_addresses b))
  /\ Z.of_nat (length (element_addresses b)) = size b
  /\ (forall (cfg : config) (k : Z),
        is_int k -> 0 <= k < size b ->
        exists r, element_addresses b !! Z.to_nat k = Some r
                  /\ operator_index cfg b k = Ret r).
Proof.
  intros [Hn _] Hfit.
  unfold begin, begin_const, end_, end_const, size in *.
  rewrite (ptr_add_size_t_fits _ _ Hn Hfit).
  repeat split; try reflexivity.
  - rewrite <- (Z2Nat.id (mSize b)) at 1 by exact Hn.
    apply traverse_range. assumption.
  - rewrite <- (Z2Nat.id (mSize b)) at 1 by exact Hn.
    apply traverse_range. assumption.
  - unfold element_addresses. rewrite length_fmap, length_seq. lia.
  - intros cfg k Hk Hr. exists (ptr_add (get (mMemory b)) k). split.
    + apply element_addresses_lookup. exact Hr.
    + apply operator_index_in_range; assumption.
Qed.

End CursorProperties.

(** C6 as stated fails for [Buffer<int>(handle, 2^62)]: the byte
    displacement [2^62 * sizeof(int)] is [2^64], so [end()] is [begin()]
    and the loop from [begin()] to [end()] visits no element, although
    [size()] is [2^62] and the index 0 passes the check of
    [operator[]]. *)
Lemma end_wraps_to_begin :
  let b := (Buffer_of_handle sample_handle (2 ^ 62) sample_heap).1 in
  is_size_t (size b)
  /\ size b = 2 ^ 62
  /\ end_ b = begin b
  /\ end_const b = begin_const b
  /\ traverse 1 (begin b) (end_ b) = Some []
  /\ traverse 1 (begin_const b) (end_const b) = Some []
  /\ Z.of_nat (length (@nil ptr)) <> size b
  /\ operator_index cfg_disabled b 0 = Ret (begin b).
Proof. vm_compute. repeat split; discriminate. Qed.

Lemma begin_end_span_the_elements_witness :
  traverse 11 (begin sample_buffer) (end_ sample_buffer)
  = Some (element_addresses sample_buffer)
  /\ traverse 11 (begin_const sample_buffer) (end_const sample_buffer)
     = Some (element_addresses sample_buffer).
Proof.
  apply (begin_end_span_the_elements sample_buffer).
  - vm_compute. split; discriminate.
  - vm_compute. discriminate.
  - vm_compute. lia.
Defined.

(** ** Slices *)

Section SliceProperties.

Context {T H : Type} `{!ElementType T} `{!OwnershipHandle T H}
        `{!SmartPointer T H}.

Lemma slice_members (s : Z) (b : Buffer T H) (first last : Z) (h : heap T) :
  get (slice_memory (slice s b first last h).1) = get (mMemory b)
  /\ slice_parent_size (slice s b first last h).1 = mSize b
  /\ origin_offset (slice s b first last h).1 = first
  /\ extent (slice s b first last h).1 = size_t_sub last first
  /\ stride (slice s b first last h).1 = s
  /\ blocks (slice s b first last h).2 = blocks h.
Proof.
  unfold slice, Slice_ctor.
  pose proof (copy_construct_get (mMemory b) h) as Hg.
  pose proof (copy_construct_blocks (mMemory b) h) as Hb.
  destruct (copy_construct (mMemory b) h) as [m h'].
  simpl in *. auto 10.
Qed.

(** C4: for a buffer of size [n] and [0 <= b <= e <= n], the slice
    [buffer.slice<S>(b, e)] has size [e - b], and for every index [k] of
    the slice with [b + k * S < n], [slice[k]] is the reference to the
    element [b + k * S] of the buffer's memory, the one [buffer[b + k * S]]
    returns. *)
Theorem slice_size_and_aliasing (cfg : config) (loc : source_location)
    (s : Z) (b : Buffer T H) (first last : Z) (h : heap T) (k : Z) :
  is_uint8 s -> is_size_t (size b) ->
  0 <= first <= last -> last <= size b ->
  Slice_size (slice s b first last h).1 = last - first
  /\ (is_int k -> 0 <= k < Slice_size (slice s b first last h).1 ->
      first + k * s < size b ->
      Slice_index cfg loc (slice s b first last h).1 k
      = Ret (ptr_add (get (mMemory b)) (first + k * s))
      /\ (is_int (first + k * s) ->
          operator_index cfg b (first + k * s)
          = Ret (ptr_add (get (mMemory b)) (first + k * s)))).
Proof.
  intros HS Hn Hfl Hln. unfold size in *.
  destruct (slice_members s b first last h)
    as [Hg [Hp [Ho [He [Hst _]]]]].
  assert (Hsize : Slice_size (slice s b first last h).1 = last - first).
  { unfold Slice_size. rewrite He. unfold size_t_sub.
    apply to_size_t_id. destruct Hn. split; lia. }
  split; [exact Hsize|].
  rewrite Hsize. intros Hk Hkr Hlt.
  assert (Hidx : Slice_backing_index (slice s b first last h).1 k
                 = first + k * s).
  { unfold Slice_backing_index, size_t_add, size_t_mul. rewrite Ho, Hst.
    destruct HS as [HS0 _]. destruct Hn as [_ Hmax].
    rewrite (to_size_t_id k) by (split; nia).
    rewrite (to_size_t_id (k * s)) by (split; nia).
    apply to_size_t_id. split; nia. }
  split.
  - unfold Slice_index. rewrite Hidx, Hg, Hp.
    rewrite (index_condition (extent (slice s b first last h).1) k Hk).
    fold (Slice_size (slice s b first last h).1). rewrite Hsize.
    rewrite (bool_decide_eq_true_2 _ Hkr).
    rewrite (bool_decide_eq_true_2 _ Hlt).
    rewrite !cpp_buffer_assert_true. reflexivity.
  - intros Hint. apply operator_index_in_range; [exact Hint|].
    destruct HS as [HS0 _]. split; [nia | exact Hlt].
Qed.

End SliceProperties.

(** [buffer.slice<2>(0, 10)] of a buffer of size 10: its size is 10 and
    [slice[1]] is the element [buffer[2]]. *)
Lemma slice_size_and_aliasing_witness :
  Slice_size (slice 2 sample_buffer 0 10 sample_heap).1 = 10 - 0
  /\ Slice_index cfg_exceptions (SourceLocation "buffer.h" 0)
       (slice 2 sample_buffer 0 10 sample_heap).1 1
     = Ret (ptr_add (get (mMemory sample_buffer)) (0 + 1 * 2))
  /\ operator_index cfg_exceptions sample_buffer (0 + 1 * 2)
     = Ret (ptr_add (get (mMemory sample_buffer)) (0 + 1 * 2)).
Proof.
  destruct (slice_size_and_aliasing cfg_exceptions
              (SourceLocation "buffer.h" 0) 2 sample_buffer 0 10
              sample_heap 1) as [Hsize Helem].
  - vm_compute. split; discriminate.
  - vm_compute. split; discriminate.
  - lia.
  - vm_compute. discriminate.
  - split; [exact Hsize|].
    destruct Helem as [Hs Hb].
    + vm_compute. split; discriminate.
    + vm_compute. split; [discriminate | reflexivity].
    + vm_compute. reflexivity.
    + split; [exact Hs|]. apply Hb. vm_compute. split; discriminate.
Defined.

(** * Further properties of the code *)

(** ** The diagnostic *)

Section DiagnosticProperties.

Import Printf.

Lemma truncate_length (n : nat) (s : string) :
  (String.length (truncate n s) <= n)%nat.
Proof.
  revert s. induction n as [|n IH]; intros [|c s]; simpl; try lia.
  specialize (IH s). lia.
Qed.

Lemma truncate_fits (n : nat) (s : string) :
  (String.length s <= n)%nat -> truncate n s = s.
Proof.
  revert s. induction n as [|n IH]; intros [|c s]; simpl;
    try reflexivity; try lia.
  intros Hlen. f_equal. apply IH. lia.
Qed.

Lemma contains_unfold (needle hay : string) :
  contains needle hay
  = String.prefix needle hay
    || match hay with
       | EmptyString => false
       | String _ hay' => contains needle hay'
       end.
Proof. destruct hay; reflexivity. Qed.

Lemma prefix_append (s t : string) : String.prefix s (s +:+ t) = true.
Proof.
  induction s as [|c s IH]; simpl.
  - destruct t; reflexivity.
  - destruct (ascii_dec c c) as [_|Hne]; [exact IH | congruence].
Qed.

Lemma contains_here (s t : string) : contains s (s +:+ t) = true.
Proof. rewrite contains_unfold, prefix_append. reflexivity. Qed.

Lemma contains_append (s a t : string) :
  contains s t = true -> contains s (a +:+ t) = true.
Proof.
  intros Hs. induction a as [|c a IH]; simpl; [exact Hs|].
  rewrite IH. apply orb_true_r.
Qed.

(** The message that the [try] block of [assert_hook] formats never
    exceeds the 1023 characters that fit its buffer, and whenever the
    expansion of the format string fits, the message is that expansion
    and contains the file, the line in decimal and the text of the
    condition. *)
Theorem formatted_message_bounded (file : string) (line condition : Z)
    (text : string) :
  snprintf 1024 formatString
    [ArgStr file; ArgInt line; ArgInt condition; ArgStr text]
  = Some (formatted_message file line condition text)
  /\ (String.length (formatted_message file line condition text)
      <= 1023)%nat
  /\ ((String.length (diagnostic_text file line condition text)
       <= 1023)%nat ->
      formatted_message file line condition text
      = diagnostic_text file line condition text
      /\ contains file (formatted_message file line condition text) = true
      /\ contains (pretty line)
           (formatted_message file line condition text) = true
      /\ contains text (formatted_message file line condition text)
         = true).
Proof.
  split; [reflexivity|]. split; [apply truncate_length|].
  intros Hfit.
  assert (Heq : formatted_message file line condition text
                = diagnostic_text file line condition text)
    by (apply truncate_fits; exact Hfit).
  rewrite Heq. split; [reflexivity|]. unfold diagnostic_text.
  split; [apply contains_here|]. split.
  - do 2 apply contains_append. apply contains_here.
  - do 7 apply contains_append. apply contains_here.
Qed.

End DiagnosticProperties.

Lemma formatted_message_bounded_witness :
  formatted_message "buffer.h" 147 0 "i >= 0"
  = diagnostic_text "buffer.h" 147 0 "i >= 0"
  /\ Printf.contains "buffer.h"
       (formatted_message "buffer.h" 147 0 "i >= 0") = true
  /\ Printf.contains (pretty 147)
       (formatted_message "buffer.h" 147 0 "i >= 0") = true
  /\ Printf.contains "i >= 0"
       (formatted_message "buffer.h" 147 0 "i >= 0") = true.
Proof.
  apply (formatted_message_bounded "buffer.h" 147 0 "i >= 0").
  vm_compute. lia.
Defined.

(** ** Lifetime of the allocation behind [Buffer<T>] *)

Section LifetimeProperties.

Context {T : Type} `{!ElementType T}.

Lemma heap_eq (h : heap T) bs uc av :
  blocks h = bs -> use_count h = uc -> avail h = av -> Heap bs uc av = h.
Proof. destruct h. simpl. intros <- <- <-. reflexivity. Qed.

Lemma sp_release_shared (p : shared_ptr) (h : heap T) (a : block) (k : nat) :
  sp_ctrl p = Some a -> use_count h !! a = Some (S (S k)) ->
  sp_release p h = Heap (blocks h) (<[a := S k]> (use_count h)) (avail h).
Proof. intros Hc Hk. unfold sp_release. rewrite Hc, Hk. reflexivity. Qed.

Lemma sp_release_last (p : shared_ptr) (h : heap T) (a : block)
    (cells : list (option T)) :
  sp_ctrl p = Some a -> use_count h !! a = Some 1%nat ->
  blocks h !! a = Some cells ->
  sp_release p h
  = Heap (delete a (blocks h)) (delete a (use_count h))
         (avail h + Z.of_nat (length cells) * sizeof T).
Proof.
  intros Hc Hk Hb. unfold sp_release, delete_array.
  rewrite Hc, Hk, Hb. reflexivity.
Qed.

Lemma sp_release_use_count_ne (p : shared_ptr) (h : heap T) (a : block) :
  sp_ctrl p <> Some a ->
  use_count (sp_release p h) !! a = use_count h !! a.
Proof.
  intros Hne. unfold sp_release.
  destruct (sp_ctrl p) as [c|]; [|reflexivity].
  assert (c <> a) by congruence.
  destruct (use_count h !! c) as [[|[|k]]|]; try reflexivity; simpl.
  3: rewrite lookup_insert_ne by assumption; reflexivity.
  all: unfold delete_array; destruct (blocks h !! c); simpl.
  all: rewrite lookup_delete_ne by assumption; reflexivity.
Qed.

Lemma alter_S_insert (uc : gmap block nat) (a : block) (k : nat) :
  uc !! a = Some k -> alter S a uc = <[a := S k]> uc.
Proof.
  intros Hk. apply map_eq. intros i.
  destruct (decide (i = a)) as [->|Hne].
  - rewrite lookup_alter_eq, lookup_insert_eq, Hk. reflexivity.
  - rewrite lookup_alter_ne, lookup_insert_ne by congruence. reflexivity.
Qed.

Lemma Buffer_new_fresh (n : Z) (h : heap T) :
  is_size_t n -> n * sizeof T <= SIZE_MAX -> n * sizeof T <= avail h ->
  exists (a : block) (h' : heap T),
    let b := mkBuffer (T:=T) (SharedPtr (Ptr (Some a) 0) (Some a)) n in
    Buffer_new n h = (Ret b, h')
    /\ blocks h !! a = None
    /\ blocks h'
       = <[a := replicate (Z.to_nat n) (default_init T)]> (blocks h)
    /\ use_count h' = <[a := 1%nat]> (use_count h)
    /\ avail h' = avail h - size_of b
    /\ Buffer_valid h' b
    /\ sp_owns h' (mMemory b) a.
Proof.
  intros [Hn0 Hn] Hfit Hav. unfold Buffer_new, new_shared, new_array.
  rewrite decide_False by lia.
  rewrite decide_False by lia. simpl.
  set (a := fresh (dom (blocks h))).
  eexists a, _. split; [reflexivity|]. simpl.
  split; [apply not_elem_of_dom, is_fresh|].
  split; [reflexivity|]. split; [reflexivity|].
  split.
  { unfold size_of, size_t_mul, size. simpl.
    rewrite to_size_t_id; [reflexivity|].
    pose proof (sizeof_pos (T:=T)). split; [nia | exact Hfit]. }
  split.
  - exists a, (replicate (Z.to_nat n) (default_init T)). simpl.
    rewrite lookup_insert_eq, length_replicate.
    repeat split; lia.
  - split; [reflexivity|]. exists 0%nat. simpl.
    apply lookup_insert_eq.
Qed.

(** [Buffer(size_t)] gives the strong guarantee: when it returns, the
    buffer has size [n] and is the sole owner of an allocation that was
    not live before and holds exactly [n] default-initialised elements,
    every other allocation and use count is kept, and the buffer is
    valid; when it leaves by an exception, that exception is
    [std::bad_array_new_length] or [std::bad_alloc] and the free store is
    as it was; it does nothing else. *)
Theorem Buffer_new_outcomes (n : Z) (h : heap T) :
  is_size_t n ->
  match Buffer_new n h with
  | (Ret b, h') =>
      exists a : block,
        b = mkBuffer (SharedPtr (Ptr (Some a) 0) (Some a)) n
        /\ blocks h !! a = None
        /\ blocks h'
           = <[a := replicate (Z.to_nat n) (default_init T)]> (blocks h)
        /\ use_count h' = <[a := 1%nat]> (use_count h)
        /\ Buffer_valid h' b
        /\ sp_owns h' (mMemory b) a
  | (Throw e, h') =>
      (e = bad_array_new_length \/ e = bad_alloc) /\ h' = h
  | (Aborted, _) | (Undefined, _) => False
  end.
Proof.
  intros Hn.
  destruct (decide (SIZE_MAX < n * sizeof T)) as [Hbig|Hfit].
  { unfold Buffer_new, new_shared, new_array.
    rewrite decide_True by exact Hbig. simpl. auto. }
  destruct (decide (avail h < n * sizeof T)) as [Hlow|Hav].
  { unfold Buffer_new, new_shared, new_array.
    rewrite decide_False by exact Hfit.
    rewrite decide_True by exact Hlow. simpl. auto. }
  destruct (Buffer_new_fresh n h Hn ltac:(lia) ltac:(lia))
    as [a [h' [Heq [Hfree [Hb [Hu [_ [Hv Ho]]]]]]]].
  rewrite Heq. exists a. auto 10.
Qed.

Lemma new_then_destroy (n : Z) (h h' : heap T) (b : Buffer T shared_ptr) :
  is_size_t n -> heap_wf h ->
  Buffer_new n h = (Ret b, h') ->
  Buffer_destroy b h' = h.
Proof.
  intros Hn Hwf Hnew.
  assert (Hfit : n * sizeof T <= SIZE_MAX /\ n * sizeof T <= avail h).
  { unfold Buffer_new, new_shared, new_array in Hnew.
    destruct (decide (SIZE_MAX < n * sizeof T)); [discriminate|].
    destruct (decide (avail h < n * sizeof T)); [discriminate|]. lia. }
  destruct Hfit as [Hfit Hav].
  destruct (Buffer_new_fresh n h Hn Hfit Hav)
    as [a [h1 [Heq [Hfree [Hb [Hu [Ha _]]]]]]].
  rewrite Heq in Hnew. injection Hnew as <- <-.
  unfold Buffer_destroy. simpl.
  rewrite (sp_release_last _ h1 a (replicate (Z.to_nat n) (default_init T)));
    [|reflexivity|rewrite Hu; apply lookup_insert_eq
     |rewrite Hb; apply lookup_insert_eq].
  assert (Hcount : use_count h !! a = None).
  { destruct (use_count h !! a) eqn:Hc; [|reflexivity].
    destruct (Hwf a) as [cells Hcells]; [eauto|]. congruence. }
  apply heap_eq.
  - rewrite Hb. symmetry. apply delete_insert_id. exact Hfree.
  - rewrite Hu. symmetry. apply delete_insert_id. exact Hcount.
  - rewrite Ha, length_replicate. unfold size_of, size_t_mul, size. simpl.
    rewrite to_size_t_id.
    + destruct Hn. rewrite Z2Nat.id by lia. lia.
    + pose proof (sizeof_pos (T:=T)). destruct Hn. split; [nia | exact Hfit].
Qed.

(** Constructing a buffer with [Buffer(size_t)] and destroying it gives
    back the free store as it was: the allocation, its control block and
    its bytes are all returned. *)
Theorem Buffer_new_destroy_round_trip (n : Z) (h h' : heap T)
    (b : Buffer T shared_ptr) :
  is_size_t n -> heap_wf h ->
  Buffer_new n h = (Ret b, h') ->
  Buffer_destroy b h' = h.
Proof. exact (new_then_destroy n h h' b). Qed.

(** A copy of a buffer is the buffer itself, member for member, and
    destroying the copy (or the original) afterwards gives back the free
    store as it was before the copy: the allocation stays, with the use
    count it had. *)
Theorem Buffer_copy_destroy_round_trip (b : Buffer T shared_ptr)
    (h : heap T) :
  (forall a, sp_ctrl (mMemory b) = Some a ->
             exists k, use_count h !! a = Some (S k)) ->
  (Buffer_copy b h).1 = b
  /\ Buffer_destroy (Buffer_copy b h).1 (Buffer_copy b h).2 = h
  /\ Buffer_destroy b (Buffer_copy b h).2 = h.
Proof.
  intros Hok. destruct b as [p n]. simpl in Hok.
  unfold Buffer_copy, Buffer_destroy. simpl. unfold sp_copy.
  destruct (sp_ctrl p) as [a|] eqn:Hc; simpl.
  - destruct (Hok a eq_refl) as [k Hk].
    assert (Hrel : sp_release p
                     (Heap (blocks h) (alter S a (use_count h)) (avail h))
                   = h).
    { rewrite (sp_release_shared p _ a k); [|exact Hc|].
      - simpl. apply heap_eq; try reflexivity.
        rewrite insert_alter_eq. symmetry. apply insert_id. exact Hk.
      - simpl. rewrite lookup_alter_eq, Hk. reflexivity. }
    repeat split; exact Hrel.
  - unfold sp_release. rewrite Hc. repeat split.
Qed.

(** Destroying a buffer that shares its allocation with other owners
    only lowers the use count; destroying the last owner removes the
    allocation and its control block and returns its bytes, after which
    no reference into it can be read or written. *)
Theorem Buffer_destroy_releases (b : Buffer T shared_ptr) (h : heap T)
    (a : block) (cells : list (option T)) (k : nat) :
  sp_ctrl (mMemory b) = Some a ->
  blocks h !! a = Some cells ->
  use_count h !! a = Some (S k) ->
  (k <> 0%nat ->
   Buffer_destroy b h
   = Heap (blocks h) (<[a := k]> (use_count h)) (avail h))
  /\ (k = 0%nat ->
      Buffer_destroy b h
      = Heap (delete a (blocks h)) (delete a (use_count h))
             (avail h + Z.of_nat (length cells) * sizeof T)
      /\ forall (o : Z) (v : T),
           load (Buffer_destroy b h) (Ptr (Some a) o) = None
           /\ store (Buffer_destroy b h) (Ptr (Some a) o) v = None).
Proof.
  intros Hc Hb Hk. unfold Buffer_destroy. split.
  - intros Hne. destruct k as [|k]; [congruence|].
    apply sp_release_shared; assumption.
  - intros ->. rewrite (sp_release_last _ h a cells) by assumption.
    split; [reflexivity|]. intros o v.
    unfold load, deref, store. simpl.
    rewrite lookup_delete_eq. split; reflexivity.
Qed.

End LifetimeProperties.

(** [Buffer<int>(10)] on an empty free store of 100 bytes. *)
Lemma Buffer_new_outcomes_witness :
  exists a : block,
    mkBuffer (T:=Z) sample_handle 10
    = mkBuffer (SharedPtr (Ptr (Some a) 0) (Some a)) 10
    /\ blocks (empty_heap (T:=Z) 100) !! a = None
    /\ blocks (Buffer_new (T:=Z) 10 (empty_heap 100)).2
       = <[a := replicate (Z.to_nat 10) (default_init Z)]>
           (blocks (empty_heap 100))
    /\ use_count (Buffer_new (T:=Z) 10 (empty_heap 100)).2
       = <[a := 1%nat]> (use_count (empty_heap (T:=Z) 100))
    /\ Buffer_valid (Buffer_new (T:=Z) 10 (empty_heap 100)).2
         (mkBuffer (T:=Z) sample_handle 10)
    /\ sp_owns (Buffer_new (T:=Z) 10 (empty_heap 100)).2
         (mMemory (mkBuffer (T:=Z) sample_handle 10)) a.
Proof.
  assert (Hten : is_size_t 10) by (vm_compute; split; discriminate).
  pose proof (Buffer_new_outcomes (T:=Z) 10 (empty_heap 100) Hten) as Hnew.
  destruct (Buffer_new (T:=Z) 10 (empty_heap 100)) as [r h'] eqn:Hrun.
  vm_compute in Hrun. injection Hrun as <- <-.
  exact Hnew.
Defined.

Lemma empty_heap_wf (bytes : Z) : heap_wf (empty_heap (T:=Z) bytes).
Proof. intros c [k Hk]. simpl in Hk. rewrite lookup_empty in Hk. discriminate. Qed.

Lemma Buffer_new_destroy_round_trip_witness :
  Buffer_destroy (mkBuffer (T:=Z) sample_handle 10)
    (Heap {[ 1%positive := replicate 10 None ]} {[ 1%positive := 1%nat ]} 60)
  = empty_heap 100.
Proof.
  apply (Buffer_new_destroy_round_trip 10 (empty_heap 100)).
  - vm_compute. split; discriminate.
  - apply empty_heap_wf.
  - vm_compute. reflexivity.
Defined.

Lemma Buffer_copy_destroy_round_trip_witness :
  (Buffer_copy sample_buffer sample_heap).1 = sample_buffer
  /\ Buffer_destroy (Buffer_copy sample_buffer sample_heap).1
       (Buffer_copy sample_buffer sample_heap).2 = sample_heap
  /\ Buffer_destroy sample_buffer (Buffer_copy sample_buffer sample_heap).2
     = sample_heap.
Proof.
  apply (Buffer_copy_destroy_round_trip sample_buffer sample_heap).
  intros a [= <-]. exists 0%nat. reflexivity.
Defined.

Lemma Buffer_destroy_releases_witness :
  Buffer_destroy sample_buffer sample_heap
  = Heap (delete 1%positive (blocks sample_heap))
         (delete 1%positive (use_count sample_heap))
         (avail sample_heap
          + Z.of_nat (length (replicate 10 (Some 0))) * sizeof Z)
  /\ forall (o : Z) (v : Z),
       load (Buffer_destroy sample_buffer sample_heap)
            (Ptr (Some 1%positive) o) = None
       /\ store (Buffer_destroy sample_buffer sample_heap)
                (Ptr (Some 1%positive) o) v = None.
Proof.
  apply (Buffer_destroy_releases sample_buffer sample_heap 1%positive
           (replicate 10 (Some 0)) 0); reflexivity.
Defined.

(** ** Moves, assignments and ownership with [std::shared_ptr] *)

Section OwnershipProperties.

Context {T : Type} `{!ElementType T}.

(** [Buffer(const ptr_t &, size_t)] adds exactly one owner to the
    allocation that the caller's handle owns and changes nothing else (an
    empty handle changes nothing at all); [Buffer(ptr_t &&, size_t)] takes
    the caller's share over: the caller's handle is left empty and no use
    count moves. *)
Theorem handle_constructors_ownership (p : shared_ptr) (s : Z)
    (h : heap T) :
  (forall (a : block) (k : nat),
     sp_ctrl p = Some a -> use_count h !! a = Some k ->
     Buffer_of_handle p s h
     = (mkBuffer p s,
        Heap (blocks h) (<[a := S k]> (use_count h)) (avail h)))
  /\ (sp_ctrl p = None -> Buffer_of_handle p s h = (mkBuffer p s, h))
  /\ Buffer_of_rvalue (T:=T) p s = (mkBuffer p s, sp_null).
Proof.
  unfold Buffer_of_handle, Buffer_of_rvalue. simpl. unfold sp_copy.
  repeat split.
  - intros a k Hc Hk. rewrite Hc.
    rewrite (alter_S_insert _ a k Hk). reflexivity.
  - intros Hc. rewrite Hc. reflexivity.
Qed.

(** The moved-from buffer of [Buffer(Buffer &&)] keeps its size although
    its handle is empty: the new buffer is the old one member for member,
    while the source still reports [size()] elements with a null
    [begin()], so that the assertion of [operator[]] still passes on it
    for every index that was in range, under every configuration. *)
Theorem Buffer_move_source_keeps_size (b : Buffer T shared_ptr) :
  (Buffer_move b).1 = b
  /\ mMemory (Buffer_move b).2 = sp_null
  /\ size (Buffer_move b).2 = size b
  /\ begin (Buffer_move b).2 = nullptr
  /\ (forall (cfg : config) (i : Z),
        is_int i -> 0 <= i < size b ->
        assert cfg (bool_decide (i >= 0)
                    && bool_decide (to_size_t i < mSize (Buffer_move b).2))
        = Ret tt).
Proof.
  destruct b as [p n]. unfold Buffer_move, size, begin. simpl.
  repeat split.
  intros cfg i Hi Hr. rewrite (index_condition n i Hi).
  rewrite (bool_decide_eq_true_2 _ Hr). unfold assert.
  destruct (NDEBUG cfg); reflexivity.
Qed.

(** Move assignment hands the allocation over: [*this] becomes the old
    [other] member for member, [other] is left with an empty handle (and
    its old size), the allocation that [other] owned stays live with
    [*this] as an owner, and its use count is untouched unless [*this]
    itself was one of its owners. *)
Theorem Buffer_move_assign_transfers (this other : Buffer T shared_ptr)
    (h : heap T) (a : block) :
  sp_owns h (mMemory other) a ->
  (sp_ctrl (mMemory this) = Some a ->
   exists k, use_count h !! a = Some (S (S k))) ->
  (Buffer_move_assign this other h).1.1 = other
  /\ (Buffer_move_assign this other h).1.2 = mkBuffer sp_null (mSize other)
  /\ blocks (Buffer_move_assign this other h).2 !! a = blocks h !! a
  /\ sp_owns (Buffer_move_assign this other h).2
       (mMemory (Buffer_move_assign this other h).1.1) a
  /\ (sp_ctrl (mMemory this) <> Some a ->
      use_count (Buffer_move_assign this other h).2 !! a
      = use_count h !! a).
Proof.
  intros [Hc [k Hk]] Hdistinct.
  destruct other as [p n], this as [q m]. simpl in *.
  unfold Buffer_move_assign, sp_move_assign. simpl.
  split; [reflexivity|]. split; [reflexivity|].
  destruct (decide (sp_ctrl q = Some a)) as [Hq|Hq].
  - destruct (Hdistinct Hq) as [k' Hk'].
    rewrite (sp_release_shared q h a k') by assumption. simpl.
    split; [reflexivity|]. split; [|congruence].
    split; [exact Hc|]. exists k'. apply lookup_insert_eq.
  - split; [apply sp_release_blocks_ne; exact Hq|]. split.
    + split; [exact Hc|]. exists k.
      rewrite sp_release_use_count_ne by exact Hq. exact Hk.
    + intros _. apply sp_release_use_count_ne. exact Hq.
Qed.

(** Copy assignment between two buffers that share one allocation, and
    self-assignment in particular, changes nothing in the free store: the
    owner added by the copy is the owner released with the old value. *)
Theorem Buffer_copy_assign_same_allocation
    (this other : Buffer T shared_ptr) (h : heap T) :
  sp_ctrl (mMemory this) = sp_ctrl (mMemory other) ->
  (forall a, sp_ctrl (mMemory other) = Some a ->
             exists k, use_count h !! a = Some (S k)) ->
  Buffer_copy_assign this other h = (other, h).
Proof.
  intros Hsame Hok. destruct other as [p n], this as [q m]. simpl in *.
  unfold Buffer_copy_assign. simpl. unfold sp_assign, sp_copy.
  destruct (sp_ctrl p) as [a|] eqn:Hc.
  - destruct (Hok a eq_refl) as [k Hk].
    rewrite (sp_release_shared q _ a k); [|exact Hsame|].
    + simpl. do 2 f_equal. apply heap_eq; try reflexivity.
      rewrite insert_alter_eq. symmetry. apply insert_id. exact Hk.
    + simpl. rewrite lookup_alter_eq, Hk. reflexivity.
  - unfold sp_release. rewrite Hsame. reflexivity.
Qed.

End OwnershipProperties.

Lemma handle_constructors_ownership_witness :
  Buffer_of_handle sample_handle 10 sample_heap
  = (mkBuffer sample_handle 10,
     Heap (blocks sample_heap)
          (<[1%positive := 2%nat]> (use_count sample_heap))
          (avail sample_heap)).
Proof.
  apply (proj1 (handle_constructors_ownership (T:=Z) sample_handle 10
                  sample_heap) 1%positive 1%nat); reflexivity.
Defined.

Lemma Buffer_move_source_keeps_size_witness :
  assert cfg_exceptions
    (bool_decide (3 >= 0)
     && bool_decide (to_size_t 3 < mSize (Buffer_move sample_buffer).2))
  = Ret tt.
Proof.
  apply (Buffer_move_source_keeps_size sample_buffer).
  - vm_compute. split; discriminate.
  - vm_compute. split; [discriminate | reflexivity].
Defined.

(** Moving [sample_buffer] into an empty buffer. *)
Lemma Buffer_move_assign_transfers_witness :
  (Buffer_move_assign Buffer_default sample_buffer sample_heap).1.1
  = sample_buffer
  /\ (Buffer_move_assign Buffer_default sample_buffer sample_heap).1.2
     = mkBuffer sp_null (mSize sample_buffer)
  /\ blocks (Buffer_move_assign Buffer_default sample_buffer sample_heap).2
       !! 1%positive
     = blocks sample_heap !! 1%positive
  /\ sp_owns (Buffer_move_assign Buffer_default sample_buffer sample_heap).2
       (mMemory
          (Buffer_move_assign Buffer_default sample_buffer sample_heap).1.1)
       1%positive
  /\ (sp_ctrl (mMemory (Buffer_default (T:=Z) (H:=shared_ptr)))
      <> Some 1%positive ->
      use_count
        (Buffer_move_assign Buffer_default sample_buffer sample_heap).2
        !! 1%positive
      = use_count sample_heap !! 1%positive).
Proof.
  apply (Buffer_move_assign_transfers (T:=Z) Buffer_default sample_buffer
           sample_heap 1%positive).
  - split; [reflexivity|]. exists 0%nat. reflexivity.
  - simpl. discriminate.
Defined.

(** Self-assignment of [sample_buffer]. *)
Lemma Buffer_copy_assign_same_allocation_witness :
  Buffer_copy_assign sample_buffer sample_buffer sample_heap
  = (sample_buffer, sample_heap).
Proof.
  apply (Buffer_copy_assign_same_allocation sample_buffer sample_buffer
           sample_heap).
  - reflexivity.
  - intros a [= <-]. exists 0%nat. reflexivity.
Defined.

(** ** Elements, cursors and writes *)

Section ElementProperties.

Context {T : Type} `{!ElementType T}.

Lemma store_block (h h' : heap T) (p : ptr) (v : T) (a : block)
    (cells : list (option T)) :
  blk p = Some a -> blocks h !! a = Some cells ->
  store h p v = Some h' ->
  blocks h' !! a = Some (<[Z.to_nat (off p) := Some v]> cells).
Proof.
  intros Ha Hc. unfold store. rewrite Ha. simpl. rewrite Hc. simpl.
  destruct (decide (0 <= off p < Z.of_nat (length cells))); [|discriminate].
  intros [= <-]. simpl. apply lookup_insert_eq.
Qed.

Lemma positions_S (p : ptr) (n : nat) :
  (fun k : nat => ptr_add p (Z.of_nat k)) <$> seq 0 (S n)
  = p :: ((fun k : nat => ptr_add (ptr_add p 1) (Z.of_nat k)) <$> seq 0 n).
Proof.
  simpl. rewrite ptr_add_0. f_equal.
  rewrite <- fmap_S_seq, <- list_fmap_compose.
  apply list_fmap_ext. intros _ k _. simpl.
  rewrite ptr_add_add. f_equal. lia.
Qed.

(** Writing a run of values through consecutive cursors of one
    allocation. *)
Lemma store_all_range (vs : list T) :
  forall (p : ptr) (h : heap T) (a : block) (cells : list (option T)),
    blk p = Some a -> blocks h !! a = Some cells ->
    0 <= off p ->
    off p + Z.of_nat (length vs) <= Z.of_nat (length cells) ->
    exists (h' : heap T) (cells' : list (option T)),
      store_all h
        ((fun k : nat => ptr_add p (Z.of_nat k)) <$> seq 0 (length vs)) vs
      = Some h'
      /\ blocks h' !! a = Some cells'
      /\ length cells' = length cells
      /\ (forall k : nat, (k < length vs)%nat ->
            load h' (ptr_add p (Z.of_nat k)) = vs !! k)
      /\ (forall q : ptr,
            (forall k : nat, (k < length vs)%nat ->
                             q <> ptr_add p (Z.of_nat k)) ->
            load h' q = load h q).
Proof.
  induction vs as [|v vs IH]; intros p h a cells Ha Hc Ho Hlen.
  - exists h, cells. simpl. repeat split; try assumption.
    intros k Hk. lia.
  - simpl length in *. rewrite positions_S. simpl store_all.
    destruct (store_succeeds h p v a cells Ha Hc ltac:(lia)) as [h1 Hst].
    rewrite Hst. simpl.
    pose proof (store_block h h1 p v a cells Ha Hc Hst) as Hc1.
    destruct (IH (ptr_add p 1) h1 a _ Ha Hc1) as [h' [cells' IH']].
    { simpl. lia. }
    { rewrite length_insert. simpl. lia. }
    destruct IH' as [Hall [Hc' [Hl' [Hin Hout]]]].
    exists h', cells'. split; [exact Hall|]. split; [exact Hc'|].
    split; [rewrite Hl'; apply length_insert|]. split.
    + intros [|k] Hk.
      * simpl. rewrite ptr_add_0. rewrite Hout.
        -- exact (store_load h h1 p v Hst).
        -- intros k Hk' Heq. rewrite ptr_add_add in Heq.
           rewrite <- (ptr_add_0 p) in Heq at 1.
           apply ptr_add_inj in Heq. lia.
      * simpl. rewrite <- (Hin k) by lia.
        rewrite ptr_add_add. do 2 f_equal. lia.
    + intros q Hq. rewrite Hout.
      * apply (store_load_other h h1 p q v Hst).
        intros Heq. apply (Hq 0%nat); [lia|].
        simpl. rewrite ptr_add_0. congruence.
      * intros k Hk Heq. apply (Hq (S k)); [lia|].
        rewrite Heq, ptr_add_add. f_equal. lia.
Qed.

End ElementProperties.

Section ViewProperties.

Context {T H : Type} `{!ElementType T} `{!OwnershipHandle T H}.

(** Distinct indices of a valid buffer designate distinct elements, and
    a write through [buffer[i]] leaves the value of every other element
    [buffer[j]] as it was. *)
Theorem operator_index_distinct_elements (cfg : config) (h : heap T)
    (b : Buffer T H) (i j : Z) :
  is_int i -> is_int j ->
  0 <= i < size b -> 0 <= j < size b -> i <> j ->
  exists p q : ptr,
    operator_index cfg b i = Ret p
    /\ operator_index_const cfg b j = Ret q
    /\ p <> q
    /\ forall (v : T) (h' : heap T),
         store h p v = Some h' -> load h' q = load h q.
Proof.
  intros Hi Hj Hir Hjr Hne. unfold size in *.
  exists (ptr_add (get (mMemory b)) i), (ptr_add (get (mMemory b)) j).
  split; [apply operator_index_in_range; assumption|].
  split; [apply (operator_index_in_range cfg b j); assumption|].
  assert (Hpq : ptr_add (get (mMemory b)) i <> ptr_add (get (mMemory b)) j).
  { intros Heq. apply ptr_add_inj in Heq. contradiction. }
  split; [exact Hpq|].
  intros v h' Hst. exact (store_load_other h h' _ _ v Hst Hpq).
Qed.

(** The loop from [begin()] to [end()] always terminates; it visits no
    position twice and never [end()] itself; it visits [size()] positions
    reduced modulo the wrap of the address arithmetic, which is [size()]
    itself, and none exactly when the size is 0, for every buffer whose
    byte size fits [size_t]. *)
Theorem traversal_visits_each_element_once (b : Buffer T H) :
  exists ps : list ptr,
    (forall fuel : nat,
       (length ps < fuel)%nat ->
       traverse fuel (begin b) (end_ b) = Some ps)
    /\ NoDup ps
    /\ (end_ b ∉ ps)
    /\ Z.of_nat (length ps) = size b mod elem_modulus T
    /\ (ps = [] <-> begin b = end_ b)
    /\ (0 <= size b -> size b * sizeof T <= SIZE_MAX ->
        Z.of_nat (length ps) = size b
        /\ (begin b = end_ b <-> size b = 0)).
Proof.
  unfold size, begin, end_, ptr_add_size_t.
  pose proof (Z.mod_pos_bound (mSize b) (elem_modulus T) elem_modulus_pos)
    as [Hm0 _].
  set (m := mSize b mod elem_modulus T) in *.
  set (p := get (mMemory b)).
  exists ((fun k : nat => ptr_add p (Z.of_nat k)) <$> seq 0 (Z.to_nat m)).
  assert (Hlen : Z.of_nat (length ((fun k : nat => ptr_add p (Z.of_nat k))
                                     <$> seq 0 (Z.to_nat m))) = m).
  { rewrite length_fmap, length_seq. lia. }
  assert (Hinj : Inj (=) (=) (fun k : nat => ptr_add p (Z.of_nat k))).
  { intros x y Heq. apply ptr_add_inj in Heq. lia. }
  assert (Hnil : (fun k : nat => ptr_add p (Z.of_nat k))
                   <$> seq 0 (Z.to_nat m) = [] <-> p = ptr_add p m).
  { split.
    - intros Hnil. apply (f_equal length) in Hnil.
      rewrite length_fmap, length_seq in Hnil. simpl in Hnil.
      replace m with 0 by lia. symmetry. apply ptr_add_0.
    - intros Heq. rewrite <- (ptr_add_0 p) in Heq at 1.
      apply ptr_add_inj in Heq. rewrite <- Heq. reflexivity. }
  split; [|split; [|split; [|split; [|split]]]].
  - intros fuel Hfuel. rewrite <- (Z2Nat.id m) at 1 by exact Hm0.
    apply traverse_range. rewrite length_fmap, length_seq in Hfuel.
    exact Hfuel.
  - apply (NoDup_fmap_2 _), NoDup_seq.
  - intros Hin. apply list_elem_of_fmap in Hin as [k [Heq Hk]].
    apply ptr_add_inj in Heq. apply elem_of_seq in Hk. lia.
  - exact Hlen.
  - exact Hnil.
  - intros Hn Hfit.
    assert (Hm : m = mSize b).
    { subst m. apply Z.mod_small. split; [exact Hn|].
      apply fits_below_elem_modulus. exact Hfit. }
    split; [rewrite Hlen; exact Hm|].
    rewrite <- Hnil, <- Hm. split.
    + intros Hnil'. rewrite Hnil' in Hlen. simpl in Hlen. lia.
    + intros ->. reflexivity.
Qed.

(** Filling a valid buffer, whose byte size fits [size_t], through its
    cursors and reading it by index: the loop from [begin()] to [end()]
    terminates, writing the [k]-th
    value through the [k]-th visited cursor succeeds for all of them, the
    buffer is still valid afterwards, [buffer[k]] then reads the [k]-th
    value, and nothing outside the buffer's elements has changed. *)
Theorem fill_through_cursors_then_index (h : heap T) (b : Buffer T H)
    (vs : list T) :
  Buffer_valid h b -> Z.of_nat (length vs) = size b ->
  size b * sizeof T <= SIZE_MAX ->
  exists (ps : list ptr) (h' : heap T),
    traverse (S (length vs)) (begin b) (end_ b) = Some ps
    /\ store_all h ps vs = Some h'
    /\ Buffer_valid h' b
    /\ (forall (cfg : config) (k : Z),
          is_int k -> 0 <= k < size b ->
          exists q, operator_index_const cfg b k = Ret q
                    /\ load h' q = vs !! Z.to_nat k)
    /\ (forall q : ptr,
          (forall k : Z, 0 <= k < size b ->
                         q <> ptr_add (get (mMemory b)) k) ->
          load h' q = load h q).
Proof.
  intros [a [cells [Ha [Hc [Ho Hlen]]]]] Hvs Hfit.
  unfold size, begin, end_ in *.
  assert (Hn : 0 <= mSize b) by lia.
  rewrite (ptr_add_size_t_fits _ _ Hn Hfit).
  destruct (store_all_range vs (get (mMemory b)) h a cells Ha Hc Ho)
    as [h' [cells' [Hall [Hc' [Hl' [Hin Hout]]]]]]; [lia|].
  exists ((fun k : nat => ptr_add (get (mMemory b)) (Z.of_nat k))
            <$> seq 0 (length vs)), h'.
  split.
  { rewrite <- Hvs. apply traverse_range. lia. }
  split; [exact Hall|]. split.
  { exists a, cells'. rewrite Hl'. auto. }
  split.
  - intros cfg k Hk Hkr. exists (ptr_add (get (mMemory b)) k).
    split; [apply (operator_index_in_range cfg b k); assumption|].
    rewrite <- (Hin (Z.to_nat k)) by lia.
    do 2 f_equal. lia.
  - intros q Hq. apply Hout. intros k Hk. apply Hq. lia.
Qed.

End ViewProperties.

Lemma operator_index_distinct_elements_witness :
  exists p q : ptr,
    operator_index cfg_exceptions sample_buffer 3 = Ret p
    /\ operator_index_const cfg_exceptions sample_buffer 4 = Ret q
    /\ p <> q
    /\ forall (v : Z) (h' : heap Z),
         store sample_heap p v = Some h' -> load h' q = load sample_heap q.
Proof.
  apply (operator_index_distinct_elements cfg_exceptions sample_heap
           sample_buffer 3 4).
  - vm_compute. split; discriminate.
  - vm_compute. split; discriminate.
  - vm_compute. split; [discriminate | reflexivity].
  - vm_compute. split; [discriminate | reflexivity].
  - discriminate.
Defined.

(** The ten positions of [sample_buffer], and none for
    [Buffer<int>(handle, 2^62)]. *)
Lemma traversal_visits_each_element_once_witness :
  traverse 11 (begin sample_buffer) (end_ sample_buffer)
  = Some (element_addresses sample_buffer)
  /\ traverse 1 (begin (mkBuffer (T:=Z) sample_handle (2 ^ 62)))
       (end_ (mkBuffer (T:=Z) sample_handle (2 ^ 62))) = Some [].
Proof.
  split.
  - destruct (traversal_visits_each_element_once sample_buffer)
      as [ps [Hloop [_ [_ [Hlen _]]]]].
    pose proof (Hloop (S (length ps)) ltac:(lia)) as Hrun.
    assert (Hten : length ps = 10%nat).
    { apply Nat2Z.inj. rewrite Hlen. reflexivity. }
    rewrite Hten in Hrun. rewrite Hrun. f_equal.
    vm_compute in Hrun. injection Hrun as <-. reflexivity.
  - destruct (traversal_visits_each_element_once
                (mkBuffer (T:=Z) sample_handle (2 ^ 62)))
      as [ps [Hloop [_ [_ [Hlen _]]]]].
    assert (Hzero : length ps = 0%nat).
    { apply Nat2Z.inj. rewrite Hlen. reflexivity. }
    destruct ps; [|discriminate]. apply Hloop. simpl. lia.
Defined.

(** Assigning 0 .. 9 through the cursors of a [Buffer<int>] of size 10. *)
Lemma fill_through_cursors_then_index_witness :
  exists (ps : list ptr) (h' : heap Z),
    traverse 11 (begin sample_buffer) (end_ sample_buffer) = Some ps
    /\ store_all sample_heap ps (seqZ 0 10) = Some h'
    /\ Buffer_valid h' sample_buffer
    /\ (forall (cfg : config) (k : Z),
          is_int k -> 0 <= k < size sample_buffer ->
          exists q, operator_index_const cfg sample_buffer k = Ret q
                    /\ load h' q = seqZ 0 10 !! Z.to_nat k)
    /\ (forall q : ptr,
          (forall k : Z, 0 <= k < size sample_buffer ->
                         q <> ptr_add (get (mMemory sample_buffer)) k) ->
          load h' q = load sample_heap q).
Proof.
  apply (fill_through_cursors_then_index sample_heap sample_buffer
           (seqZ 0 10)).
  - exists 1%positive, (replicate 10 (Some 0)).
    repeat split; vm_compute; discriminate.
  - reflexivity.
  - vm_compute. discriminate.
Defined.

(** ** Allocation does not disturb, and the free store stays well formed *)

Section AllocationProperties.

Context {T : Type} `{!ElementType T}.

Lemma Buffer_new_blocks (n : Z) (h h' : heap T) (b : Buffer T shared_ptr) :
  Buffer_new n h = (Ret b, h') ->
  exists a : block,
    blocks h !! a = None
    /\ b = mkBuffer (SharedPtr (Ptr (Some a) 0) (Some a)) n
    /\ blocks h' = <[a := replicate (Z.to_nat n) (default_init T)]> (blocks h)
    /\ use_count h' = <[a := 1%nat]> (use_count h).
Proof.
  unfold Buffer_new, new_shared, new_array.
  destruct (decide (SIZE_MAX < n * sizeof T)); [discriminate|].
  destruct (decide (avail h < n * sizeof T)); [discriminate|].
  simpl. intros [= <- <-]. exists (fresh (dom (blocks h))).
  split; [apply not_elem_of_dom, is_fresh|]. repeat split.
Qed.

(** Constructing a buffer with [Buffer(size_t)] leaves every valid
    buffer valid, whatever its handle type, keeps the value of every
    element of every allocation that was live, and gives the new buffer
    an allocation of its own. *)
Theorem Buffer_new_preserves_existing {H : Type} `{!OwnershipHandle T H}
    (n : Z) (h h' : heap T) (b : Buffer T shared_ptr) (c : Buffer T H) :
  Buffer_new n h = (Ret b, h') ->
  Buffer_valid h c ->
  Buffer_valid h' c
  /\ blk (get (mMemory c)) <> blk (get (mMemory b))
  /\ (forall (p : ptr) (a : block),
        blk p = Some a -> is_Some (blocks h !! a) ->
        load h' p = load h p).
Proof.
  intros Hnew [a [cells [Ha [Hc [Ho Hlen]]]]].
  destruct (Buffer_new_blocks n h h' b Hnew) as [a' [Hfree [-> [Hb _]]]].
  assert (Hkeep : forall a0, is_Some (blocks h !! a0) ->
                             blocks h' !! a0 = blocks h !! a0).
  { intros a0 [x Hx]. rewrite Hb. apply lookup_insert_ne. congruence. }
  split; [|split].
  - exists a, cells. rewrite Hkeep by eauto. auto.
  - simpl. rewrite Ha. intros [= ->]. congruence.
  - intros p a0 Hp Hlive. unfold load, deref. rewrite Hp. simpl.
    rewrite Hkeep by exact Hlive. reflexivity.
Qed.




End AllocationProperties.

Lemma Buffer_new_preserves_existing_witness :
  Buffer_valid
    (Heap (<[2%positive := replicate 5 None]> (blocks sample_heap))
          (<[2%positive := 1%nat]> (use_count sample_heap)) 0)
    sample_buffer.
Proof.
  apply (Buffer_new_preserves_existing (T:=Z) 5
           (heap_with (replicate 10 (Some 0)) 20) _
           (mkBuffer (SharedPtr (Ptr (Some 2%positive) 0) (Some 2%positive)) 5)
           sample_buffer).
  - vm_compute. reflexivity.
  - exists 1%positive, (replicate 10 (Some 0)).
    repeat split; vm_compute; discriminate.
Defined.


